(** * audioreader: job orchestration and speed estimation of [app.py]

    A shallow embedding of the transcription core of [app.py]: the
    capability probe, the job registry [_jobs], the streaming generator
    [whisper_stream], the thread-pool fan-out [whisper_stream_parallel],
    the speed benchmark [test_whisper_speed] and the speed-ratio file.

    Conventions.
    - Python [str] is [string]; a character is a code point below 256.
    - Everything outside the interpreter (file system, the [whisper]
      process, the clock, the thread pool's completion order) is an
      explicit oracle passed as an argument.
    - A call that may raise returns an [outcome]; every exception of the
      model is an instance of Python's [Exception].
    - A generator is the trace of what it does when driven to exhaustion:
      its [yield]s interleaved with its writes to [_jobs]. *)

From Stdlib Require Import ZArith Ascii Floats.
From stdpp Require Import base option list gmap strings.

Local Open Scope Z_scope.

(** ** Python prelude *)

Module Py.

(** [str(b)] for a [bool]. *)
Definition str_of_bool (b : bool) : string :=
  if b then "True" else "False".

(** [sep.join(parts)]. *)
Fixpoint join (sep : string) (parts : list string) : string :=
  match parts with
  | [] => ""
  | [p] => p
  | p :: rest => p +:+ sep +:+ join sep rest
  end.

(** [s.startswith(p)]. *)
Fixpoint startswith (p s : string) : bool :=
  match p, s with
  | EmptyString, _ => true
  | String a p', String b s' => bool_decide (a = b) && startswith p' s'
  | String _ _, EmptyString => false
  end.

(** [needle in hay] on strings. *)
Fixpoint contains (needle hay : string) : bool :=
  startswith needle hay ||
  match hay with
  | EmptyString => false
  | String _ hay' => contains needle hay'
  end.

(** [c.isspace()] for a code point below 256: TAB, LF, VT, FF, CR, the
    separators FS, GS, RS, US, SPACE, NEL and NBSP. *)
Definition isspace (c : ascii) : bool :=
  let n := Z.of_N (N_of_ascii c) in
  ((9 <=? n) && (n <=? 13)) || ((28 <=? n) && (n <=? 32))
  || (n =? 133) || (n =? 160).

(** [s.rstrip()]: drop the trailing run of whitespace. *)
Fixpoint rstrip (s : string) : string :=
  match s with
  | EmptyString => EmptyString
  | String c s' =>
      match rstrip s' with
      | EmptyString => if isspace c then EmptyString else String c EmptyString
      | r => String c r
      end
  end.

(** [not s] for a string: the truth value of [if not line]. *)
Definition is_empty (s : string) : bool :=
  match s with EmptyString => true | String _ _ => false end.

(** ASCII part of [c.lower()]. *)
Definition lower_char (c : ascii) : ascii :=
  let n := N_of_ascii c in
  if ((65 <=? n) && (n <=? 90))%N then ascii_of_N (n + 32) else c.

Fixpoint lower (s : string) : string :=
  match s with
  | EmptyString => EmptyString
  | String c s' => String (lower_char c) (lower s')
  end.

(** [len(l)] rendered in decimal, as an f-string does. *)
Fixpoint digits (fuel : nat) (n : N) (acc : string) : string :=
  match fuel with
  | O => acc
  | S fuel' =>
      let acc' := String (ascii_of_N (48 + n mod 10)) acc in
      if (n <? 10)%N then acc' else digits fuel' (n / 10) acc'
  end.

Definition str_of_nat (n : nat) : string :=
  digits (S n) (N.of_nat n) "".

Definition str_of_Z (z : Z) : string :=
  if z <? 0 then "-" +:+ str_of_nat (Z.abs_nat z) else str_of_nat (Z.to_nat z).

(** An exception object: its class name and [str(e)]. *)
Record exn : Type := Exn { exn_class : string; exn_str : string }.

(** The result of a call that returns or raises. *)
Inductive outcome (A : Type) : Type :=
  | Ret (a : A)
  | Raise (e : exn).
Arguments Ret {A} a.
Arguments Raise {A} e.

#[global] Instance outcome_ret : MRet outcome := λ A a, Ret a.
#[global] Instance outcome_bind : MBind outcome := λ A B f m,
  match m with
  | Ret a => f a
  | Raise e => Raise e
  end.

(** [try: body / except Exception as e: handler(e)]. *)
Definition try_except {A} (body : outcome A) (handler : exn → outcome A)
  : outcome A :=
  match body with
  | Ret a => Ret a
  | Raise e => handler e
  end.

End Py.

Import Py.

(** ** CapabilityProbe *)

(** What [subprocess.run(..., capture_output=True, text=True)] returns. *)
Record CompletedProcess : Type := {
  stdout : string;
  stderr : string;
  returncode : Z;
}.

(** The dictionary built by [get_whisper_capabilities_cached]. *)
Record capabilities : Type := {
  word_timestamps_available : bool;
  highlight_words_available : bool;
  installed : bool;
}.

Definition no_capabilities : capabilities :=
  {| word_timestamps_available := false;
     highlight_words_available := false;
     installed := false |}.

(** [get_whisper_capabilities_cached]; [help_run] is what
    [subprocess.run(['whisper', '--help'], ..., timeout=10)] does in this
    process.  The [lru_cache] makes every call return the first result, so
    the value is a function of that one invocation. *)
Definition get_whisper_capabilities_cached
    (help_run : outcome CompletedProcess) : outcome capabilities :=
  try_except
    (result ← help_run;
     let help_text := stdout result +:+ stderr result in
     mret {| word_timestamps_available := contains "--word_timestamps" help_text;
             highlight_words_available := contains "--highlight_words" help_text;
             installed := bool_decide (returncode result = 0) |})
    (λ e, mret no_capabilities).

(** The failures named by the probe's contract. *)
Definition tool_missing : exn :=
  Exn "FileNotFoundError" "[Errno 2] No such file or directory: 'whisper'".
Definition tool_timeout : exn :=
  Exn "TimeoutExpired" "Command '['whisper', '--help']' timed out after 10 seconds".

(** The contract as the specification words it, kept apart for comparison
    with the code: on any failure, non-zero exit included, the probe
    yields the all-false value. *)
Definition spec_detect (help_run : outcome CompletedProcess) : capabilities :=
  match help_run with
  | Raise _ => no_capabilities
  | Ret result =>
      if bool_decide (returncode result = 0)
      then {| word_timestamps_available :=
                contains "--word_timestamps" (stdout result +:+ stderr result);
              highlight_words_available :=
                contains "--highlight_words" (stdout result +:+ stderr result);
              installed := true |}
      else no_capabilities
  end.

(** ** JobRegistry: the module-level dictionary [_jobs] *)

(** A key [(book, mp3)] and the [subprocess.Popen] object stored under
    it, identified by its process id. *)
Abbreviation JobKey := (string * string)%type.
Abbreviation Popen := nat.
Abbreviation jobs := (gmap (string * string) nat).

(** [_jobs[key] = proc] under [_lock]. *)
Definition jobs_setitem (key : JobKey) (proc : Popen) (j : jobs) : jobs :=
  <[key := proc]> j.

(** [_jobs.pop(key, None)] under [_lock]. *)
Definition jobs_pop (key : JobKey) (j : jobs) : jobs :=
  delete key j.

(** [job_running(book, mp3)]: [(book, mp3) in _jobs]. *)
Definition job_running (book mp3 : string) (j : jobs) : bool :=
  bool_decide (is_Some (j !! (book, mp3))).

(** The contract as the specification words it, kept apart for comparison
    with the code: [register(key)] inserts a handle and fails with
    AlreadyRunning when the key is present. *)
Inductive register_result : Type :=
  | Registered (j : jobs)
  | AlreadyRunning.

Definition spec_register (key : JobKey) (proc : Popen) (j : jobs)
  : register_result :=
  match j !! key with
  | Some _ => AlreadyRunning
  | None => Registered (<[key := proc]> j)
  end.

(** ** Generators *)

Module Gen.

(** What a generator does that the rest of the process can observe. *)
Inductive event : Type :=
  | Yield (chunk : string)
  | SetJob (key : JobKey) (proc : Popen)
  | PopJob (key : JobKey).

(** A generator driven until it returns or raises: the events in program
    order and how it ended. *)
Record gen (A : Type) : Type := Gen { trace : list event; value : outcome A }.
Arguments Gen {A} trace value.
Arguments trace {A} g.
Arguments value {A} g.

#[global] Instance gen_ret : MRet gen := λ A a, Gen [] (Ret a).
#[global] Instance gen_bind : MBind gen := λ A B f m,
  match value m with
  | Ret a => Gen (trace m ++ trace (f a)) (value (f a))
  | Raise e => Gen (trace m) (Raise e)
  end.

Definition yield (chunk : string) : gen unit := Gen [Yield chunk] (Ret tt).
Definition set_job (key : JobKey) (proc : Popen) : gen unit :=
  Gen [SetJob key proc] (Ret tt).
Definition pop_job (key : JobKey) : gen unit := Gen [PopJob key] (Ret tt).

(** A call made by the generator that returns or raises. *)
Definition call {A} (o : outcome A) : gen A := Gen [] o.

(** [try: body / except Exception as e: handler(e)] inside a generator. *)
Definition try_except {A} (body : gen A) (handler : exn → gen A) : gen A :=
  match value body with
  | Ret _ => body
  | Raise e => Gen (trace body ++ trace (handler e)) (value (handler e))
  end.

(** [for x in xs: body(x)]. *)
Fixpoint for_each {A} (xs : list A) (body : A → gen unit) : gen unit :=
  match xs with
  | [] => mret tt
  | x :: rest => body x;; for_each rest body
  end.

(** The chunks the consumer receives. *)
Fixpoint yields (t : list event) : list string :=
  match t with
  | [] => []
  | Yield chunk :: t' => chunk :: yields t'
  | _ :: t' => yields t'
  end.

(** The effect of one event on [_jobs]. *)
Definition apply_event (j : jobs) (ev : event) : jobs :=
  match ev with
  | Yield _ => j
  | SetJob key proc => jobs_setitem key proc j
  | PopJob key => jobs_pop key j
  end.

(** [_jobs] after the events of [t], starting from [j]. *)
Definition jobs_after (t : list event) (j : jobs) : jobs :=
  foldl apply_event j t.

(** The events that happen when the consumer takes [n] chunks and then
    closes the generator: the body runs up to its [n]-th [yield], where
    [GeneratorExit] is raised; that is not an [Exception], so no handler
    of the model runs. *)
Fixpoint consumed (n : nat) (t : list event) : list event :=
  match n, t with
  | O, _ => []
  | _, [] => []
  | S n', Yield chunk :: t' => Yield chunk :: consumed n' t'
  | S _, ev :: t' => ev :: consumed n t'
  end.

End Gen.

Import Gen.

(** ** The world outside the interpreter *)

(** One execution of the [whisper] command line started by
    [subprocess.Popen(cmd, stdout=PIPE, stderr=STDOUT, text=True)]. *)
Record tool_run : Type := {
  spawn : outcome Popen;        (* [Popen(...)] returns the process or raises *)
  output : list string;         (* the lines the tool writes, without terminators *)
  read_error : option exn;      (* [readline()] raising after those lines *)
  exit_code : Z;                (* [proc.returncode] after [proc.wait()] *)
  vtt_exists : outcome bool;    (* [expected_vtt.exists()] after the run *)
  vtt_has_words : bool;         (* [has_word_timestamps(expected_vtt)] *)
}.

Record world : Type := {
  BOOKS : string;                               (* [str(BOOKS)] *)
  help_run : outcome CompletedProcess;          (* [whisper --help], first call *)
  list_mp3s : string → list string;             (* sorted [*.mp3] names of a book *)
  path_exists : string → outcome bool;          (* [Path.exists()] before any run *)
  whisper : list string → tool_run;             (* behaviour of a command line *)
  finish_order : list string → list nat;        (* [as_completed]: indices of the
                                                   submitted futures, first done first *)
}.

(** [a / b] on paths, rendered with [str], for a folder [a] other than
    the root and a relative [b] whose components are neither empty nor
    [.]: such a [b] is appended as it is. *)
Definition path_join (a b : string) : string := a +:+ "/" +:+ b.

(** The stem of [name.ext], if there is an extension. *)
Fixpoint split_suffix (name : string) : option string :=
  match name with
  | EmptyString => None
  | String c rest =>
      match split_suffix rest with
      | Some stem => Some (String c stem)
      | None => if bool_decide (c = "."%char) then Some EmptyString else None
      end
  end.

(** [Path(name).with_suffix(suffix)] for a file name of one path
    component: the part after the last dot is replaced, unless that dot is
    the first character, and the suffix is appended when there is nothing
    to replace. *)
Definition with_suffix (name suffix : string) : string :=
  match split_suffix name with
  | Some (String c stem) => String c stem +:+ suffix
  | _ => name +:+ suffix
  end.

(** [caption_path(book, mp3)], for a book and an audio file named as
    [list_books] and [list_mp3s] name them, by one path component. *)
Definition caption_path (w : world) (book mp3 : string) : string :=
  path_join (path_join (BOOKS w) book) (with_suffix mp3 ".vtt").

Definition MODEL : string := "medium".

Definition LF : string := String (ascii_of_nat 10) EmptyString.

(** ** TranscriptionRunner *)

(** [for line in iter(proc.stdout.readline, ''): ...]; [reads] are the
    successive results of [readline()]. *)
Fixpoint read_loop (reads : list string) (err : option exn) : gen unit :=
  match reads with
  | [] =>
      match err with
      | None => mret tt
      | Some e => call (Raise e)
      end
  | raw :: rest =>
      if is_empty raw then mret tt
      else
        let line := rstrip raw in
        (if is_empty line then mret tt else yield (line +:+ LF));;
        read_loop rest err
  end.

(** What [readline()] returns for a line the tool wrote. *)
Definition readline_of (l : string) : string := l +:+ LF.

Definition enabled_str (b : bool) : string :=
  if b then "enabled" else "disabled".

(** Lines 258 to 271 of [whisper_stream]: the command line handed to
    [subprocess.Popen]. *)
Definition whisper_command (w : world) (book mp3 : string)
    (enable_word_timestamps enable_highlighting : bool)
    (capabilities : capabilities) : list string :=
  let folder := path_join (BOOKS w) book in
  let mp3_path := path_join folder mp3 in
  let cmd := ["whisper"; mp3_path; "--model"; MODEL;
              "--output_format"; "vtt"; "--output_dir"; folder;
              "--fp16"; "False"] in
  if enable_word_timestamps && word_timestamps_available capabilities then
    let cmd := cmd ++ ["--word_timestamps"; "True"] in
    if enable_highlighting && highlight_words_available capabilities
    then cmd ++ ["--highlight_words"; "True"]
    else cmd
  else cmd.

(** [whisper_stream(book, mp3, enable_word_timestamps, enable_highlighting)]. *)
Definition whisper_stream (w : world) (book mp3 : string)
    (enable_word_timestamps enable_highlighting : bool) : gen unit :=
  let folder := path_join (BOOKS w) book in
  let mp3_path := path_join folder mp3 in
  present ← call (path_exists w mp3_path);
  if negb present then
    yield ("Error: MP3 file not found: " +:+ mp3_path +:+ LF)
  else
    capabilities ← call (get_whisper_capabilities_cached (help_run w));
    let cmd := whisper_command w book mp3 enable_word_timestamps
                 enable_highlighting capabilities in
    yield ("Starting Whisper transcription for: " +:+ mp3 +:+ LF);;
    yield ("Command: " +:+ join " " cmd +:+ LF);;
    yield ("Word timestamps: " +:+
           enabled_str (enable_word_timestamps &&
                        word_timestamps_available capabilities) +:+ LF);;
    yield ("Word highlighting: " +:+
           enabled_str (enable_highlighting &&
                        highlight_words_available capabilities) +:+ LF +:+ LF);;
    Gen.try_except
      (let run := whisper w cmd in
       proc ← call (spawn run);
       set_job (book, mp3) proc;;
       read_loop (readline_of <$> output run) (read_error run);;
       pop_job (book, mp3);;
       let expected_vtt := caption_path w book mp3 in
       created ← call (vtt_exists run);
       (if created : bool then
          yield (LF +:+ "SUCCESS: VTT file created at " +:+ expected_vtt +:+ LF);;
          yield ("Word-level timestamps: " +:+
                 (if vtt_has_words run then "Yes" else "No") +:+ LF)
        else
          yield (LF +:+ "WARNING: Expected VTT file not found at " +:+
                 expected_vtt +:+ LF));;
       if bool_decide (exit_code run ≠ 0) then
         yield (LF +:+ "ERROR: Whisper process failed with exit code " +:+
                str_of_Z (exit_code run) +:+ LF)
       else
         yield (LF +:+ "[DONE " +:+ mp3 +:+ " - SUCCESS]" +:+ LF))
      (λ e,
         yield (LF +:+ "EXCEPTION: " +:+ exn_str e +:+ LF);;
         pop_job (book, mp3)).

(** ** ParallelScheduler *)

(** [transcribe_single(mp3)], the worker submitted to the pool: it drains
    [whisper_stream(book, mp3)] and tags every line.  The value is what
    [future.result()] returns or raises. *)
Definition transcribe_single (w : world) (book mp3 : string)
  : outcome (string * list string) :=
  let g := whisper_stream w book mp3 true true in
  match value g with
  | Ret _ =>
      Ret (mp3, (λ line, "[" +:+ mp3 +:+ "] " +:+ line) <$> yields (trace g))
  | Raise e => Raise e
  end.

(** [concurrent.futures.as_completed(future_to_mp3)]: the submitted
    futures in the order in which they finish. *)
Definition as_completed {A} (order : list nat) (futures : list A) : list A :=
  omap (λ i, futures !! i) order.

(** [ThreadPoolExecutor(max_workers=max_workers)]. *)
Definition ThreadPoolExecutor (max_workers : Z) : outcome unit :=
  if max_workers <=? 0
  then Raise (Exn "ValueError" "max_workers must be greater than 0")
  else Ret tt.

(** [whisper_stream_parallel(book, mp3_files, max_workers)].  The workers
    write to [_jobs] on their own threads; the trace holds what the
    consumer of this generator receives. *)
Definition whisper_stream_parallel (w : world) (book : string)
    (mp3_files : list string) (max_workers : Z) : gen unit :=
  yield ("Starting parallel transcription of " +:+
         str_of_nat (length mp3_files) +:+ " files with " +:+
         str_of_Z max_workers +:+ " workers" +:+ LF +:+ LF);;
  call (ThreadPoolExecutor max_workers);;
  let future_to_mp3 :=
    (λ mp3, (transcribe_single w book mp3, mp3)) <$> mp3_files in
  for_each (as_completed (finish_order w mp3_files) future_to_mp3)
    (λ '(future, mp3),
       Gen.try_except
         ('(mp3_name, output_lines) ← call future;
          yield (LF +:+ "=== COMPLETED: " +:+ mp3_name +:+ " ===" +:+ LF);;
          for_each output_lines yield;;
          yield ("=== END: " +:+ mp3_name +:+ " ===" +:+ LF +:+ LF))
         (λ e,
            yield (LF +:+ "=== ERROR: " +:+ mp3 +:+ " ===" +:+ LF);;
            yield ("Exception: " +:+ exn_str e +:+ LF);;
            yield ("=== END ERROR: " +:+ mp3 +:+ " ===" +:+ LF +:+ LF))).

(** ** The [/gen_all] route *)

(** The JSON body of a [/gen_all] request; absent keys are [None]. *)
Record gen_all_request : Type := {
  req_book : string;
  req_parallel : option bool;
  req_max_workers : option Z;
  req_word_timestamps : option bool;
  req_highlighting : option bool;
}.

Inductive response : Type :=
  | Text (body : string)
  | Stream (g : gen unit).

(** [[mp3 for mp3 in list_mp3s(book) if not caption_path(book, mp3).exists()]]. *)
Fixpoint uncaptioned (w : world) (book : string) (mp3s : list string)
  : outcome (list string) :=
  match mp3s with
  | [] => mret []
  | mp3 :: rest =>
      captioned ← path_exists w (caption_path w book mp3);
      more ← uncaptioned w book rest;
      mret (if captioned : bool then more else mp3 :: more)
  end.

(** The inner generator [batch()] of the sequential branch. *)
Definition batch (w : world) (book : string) (files_to_process : list string)
    (enable_word_timestamps enable_highlighting : bool) : gen unit :=
  for_each files_to_process
    (λ mp3,
       yield (LF +:+ "=== " +:+ mp3 +:+ " ===" +:+ LF);;
       whisper_stream w book mp3 enable_word_timestamps enable_highlighting).

(** [stream_book_captions_route()]. *)
Definition stream_book_captions_route (w : world) (data : gen_all_request)
  : outcome response :=
  let book := req_book data in
  let parallel := default false (req_parallel data) in
  let max_workers := default 2 (req_max_workers data) in
  let enable_word_timestamps := default true (req_word_timestamps data) in
  let enable_highlighting := default true (req_highlighting data) in
  files_to_process ← uncaptioned w book (list_mp3s w book);
  if bool_decide (files_to_process = []) then
    mret (Text ("All files already have transcripts" +:+ LF))
  else if parallel && bool_decide (1 < length files_to_process)%nat then
    mret (Stream (whisper_stream_parallel w book files_to_process max_workers))
  else
    mret (Stream (batch w book files_to_process
                    enable_word_timestamps enable_highlighting)).

(** ** SpeedBenchmark *)

(** The [settings] dictionary sent by the client; absent keys are [None]. *)
Record settings : Type := {
  word_timestamps : option bool;
  highlighting : option bool;
}.

(** The dictionary returned by [test_whisper_speed]. *)
Record speed_result : Type := {
  success : bool;
  processing_time : float;
  audio_duration : float;
  speed_ratio : float;
  model_tested : string;
  settings_tested : settings;
  error : option string;
}.

(** What one benchmark run observes: the clock before and after
    [subprocess.run(cmd, ..., timeout=120)], what that call did, and what
    [get_audio_duration(test_audio_path)] reports. *)
Record bench : Type := {
  start_time : float;
  end_time : float;
  bench_run : list string → outcome CompletedProcess;
  probed_duration : float;
}.

(** The conditional expression of line 222. *)
Definition compute_speed_ratio (audio_duration processing_time : float)
  : float :=
  if (0 <? audio_duration)%float && (0 <? processing_time)%float
  then (audio_duration / processing_time)%float
  else 0%float.

(** Lines 199 to 212 of [test_whisper_speed]: the command line of the
    benchmark; [temp_dir] is the directory made by
    [tempfile.TemporaryDirectory()]. *)
Definition speed_test_command (capabilities : capabilities)
    (temp_dir test_audio_path model_to_test : string)
    (test_settings : settings) : list string :=
  let cmd := ["whisper"; test_audio_path; "--model"; model_to_test;
              "--output_format"; "vtt"; "--output_dir"; temp_dir;
              "--fp16"; "False"] in
  if default true (word_timestamps test_settings)
     && word_timestamps_available capabilities then
    let cmd := cmd ++ ["--word_timestamps"; "True"] in
    if default true (highlighting test_settings)
       && highlight_words_available capabilities
    then cmd ++ ["--highlight_words"; "True"]
    else cmd
  else cmd.

(** [test_whisper_speed(test_audio_path, model_to_test, test_settings)];
    [capabilities] is the value of [get_whisper_capabilities_cached()]. *)
Definition test_whisper_speed (capabilities : capabilities) (b : bench)
    (temp_dir test_audio_path model_to_test : string)
    (test_settings : settings) : speed_result :=
  let cmd := speed_test_command capabilities temp_dir test_audio_path
               model_to_test test_settings in
  match bench_run b cmd with
  | Ret result =>
      let processing_time := (end_time b - start_time b)%float in
      let audio_duration := probed_duration b in
      let speed_ratio := compute_speed_ratio audio_duration processing_time in
      {| success := bool_decide (returncode result = 0);
         processing_time := processing_time;
         audio_duration := audio_duration;
         speed_ratio := speed_ratio;
         model_tested := model_to_test;
         settings_tested := test_settings;
         error := if bool_decide (returncode result ≠ 0)
                  then Some (stderr result) else None |}
  | Raise e =>
      if bool_decide (exn_class e = "TimeoutExpired") then
        {| success := false;
           error := Some "Transcription speed test timed out";
           processing_time := 120%float;
           audio_duration := probed_duration b;
           speed_ratio := 0%float;
           model_tested := model_to_test;
           settings_tested := test_settings |}
      else
        {| success := false;
           error := Some (exn_str e);
           processing_time := 0%float;
           audio_duration := probed_duration b;
           speed_ratio := 0%float;
           model_tested := model_to_test;
           settings_tested := test_settings |}
  end.

(** ** SpeedRatioStore *)

(** [get_speed_test_key(model_name, settings)]. *)
Definition get_speed_test_key (model_name : string) (settings : settings)
  : string :=
  let word_ts := default true (word_timestamps settings) in
  let highlight := default true (highlighting settings) in
  model_name +:+ ":" +:+ str_of_bool word_ts +:+ ":" +:+ str_of_bool highlight.

(** The record saved under a key by the [/api/whisper/speed-test] route. *)
Record SpeedRecord : Type := {
  sr_speed_ratio : float;
  sr_model_tested : string;
  sr_settings_key_info : settings;
  sr_test_audio_duration : float;
  sr_test_processing_time : float;
  sr_timestamp : string;
}.

(** A Python [dict] with string keys, as its items in insertion order.
    [dict_get key d] is [d[key]] when [key in d], and [None] when it is
    not; [dict_set key value d] is [d] after [d[key] = value], which keeps
    the place of a key that is present and appends one that is new. *)
Fixpoint dict_get {V} (key : string) (d : list (string * V)) : option V :=
  match d with
  | [] => None
  | (k, v) :: rest => if bool_decide (k = key) then Some v else dict_get key rest
  end.

Fixpoint dict_set {V} (key : string) (value : V) (d : list (string * V))
  : list (string * V) :=
  match d with
  | [] => [(key, value)]
  | (k, v) :: rest =>
      if bool_decide (k = key) then (key, value) :: rest
      else (k, v) :: dict_set key value rest
  end.

(** The state of [speed_ratios.json], by what [SPEED_RATIOS_FILE.exists()],
    [read_text(encoding='utf-8')] and [json.loads] do with it:
    - [Missing]: [exists()] is [False];
    - [Unreadable]: [read_text] raises [IOError];
    - [Undecodable e]: [read_text] or [json.loads] raises [e], an
      exception that is neither an [IOError] nor a [json.JSONDecodeError]:
      the [UnicodeDecodeError] of bytes that are not UTF-8, or the
      [RecursionError] of a text that is nested too deeply;
    - [NotJson]: [json.loads] raises [json.JSONDecodeError];
    - [JsonArray elements]: the text is a JSON array; an element that is a
      string is [Some] of it, any other element is [None];
    - [JsonString text]: the text is a JSON string;
    - [JsonScalar type_name]: the text is [null], [true], [false] or a
      number; [type_name] is the name of the Python type of its value
      ([NoneType], [bool], [int] or [float]);
    - [Stored all_ratios]: the text is a JSON object; [all_ratios] is the
      [dict] that [json.loads] makes of it, as its items in insertion
      order, which is the order of the text that [json.dumps] writes.
      The values are records as the route saves them; no function below
      looks into a value. *)
Inductive ratios_file : Type :=
  | Missing
  | Unreadable
  | Undecodable (e : exn)
  | NotJson
  | JsonArray (elements : list (option string))
  | JsonString (text : string)
  | JsonScalar (type_name : string)
  | Stored (all_ratios : list (string * SpeedRecord)).

(** What [load_saved_speed_ratios()] returns: a [dict], or the value of a
    JSON text that is not an object. *)
Inductive loaded : Type :=
  | Mapping (all_ratios : list (string * SpeedRecord))
  | ArrayValue (elements : list (option string))
  | StringValue (text : string)
  | ScalarValue (type_name : string).

(** [load_saved_speed_ratios()]: only [json.JSONDecodeError] and [IOError]
    are caught. *)
Definition load_saved_speed_ratios (f : ratios_file) : outcome loaded :=
  match f with
  | Missing => Ret (Mapping [])
  | Unreadable | NotJson => Ret (Mapping [])
  | Undecodable e => Raise e
  | JsonArray elements => Ret (ArrayValue elements)
  | JsonString text => Ret (StringValue text)
  | JsonScalar type_name => Ret (ScalarValue type_name)
  | Stored all_ratios => Ret (Mapping all_ratios)
  end.

(** What [SPEED_RATIOS_FILE.write_text(...)] does: it writes the text, or
    raises [IOError] and leaves the file in some state. *)
Inductive write_result : Type :=
  | Written
  | WriteError (left_behind : ratios_file).

(** [save_speed_ratio_data(key, data)]: the file afterwards.  The load and
    the assignment [all_ratios[key] = data] stand before the [try], so what
    they raise leaves the function. *)
Definition save_speed_ratio_data (wr : write_result) (key : string)
    (data : SpeedRecord) (f : ratios_file) : outcome ratios_file :=
  all_ratios ← load_saved_speed_ratios f;
  match all_ratios with
  | Mapping all_ratios =>
      let all_ratios := dict_set key data all_ratios in
      match wr with
      | Written => Ret (Stored all_ratios)
      | WriteError left_behind => Ret left_behind
      end
  | ArrayValue _ =>
      Raise (Exn "TypeError" "list indices must be integers or slices, not str")
  | StringValue _ =>
      Raise (Exn "TypeError" "'str' object does not support item assignment")
  | ScalarValue type_name =>
      Raise (Exn "TypeError"
               ("'" +:+ type_name +:+ "' object does not support item assignment"))
  end.

(** The query string of [GET /api/speed-ratio]; absent parameters are
    [None]. *)
Record speed_ratio_query : Type := {
  q_model : option string;
  q_word_timestamps : option string;
  q_highlight_words : option string;
}.

(** The answers of [GET /api/speed-ratio]: the record with status 200, the
    message with status 404, or the fixed error with status 500. *)
Inductive speed_ratio_response : Type :=
  | Found (record : SpeedRecord)
  | NotFound (message : string)
  | ServerError.

(** Lines 387 to 393: the lookup of a key in what was loaded.  On a list
    [in] compares the key with the elements, on a string it looks for a
    substring, on any other value it raises; subscripting a list or a string
    with the key raises. *)
Definition find_speed_ratio (f : ratios_file) (key_to_find : string)
  : outcome speed_ratio_response :=
  let not_found :=
    NotFound ("No speed ratio found for key: " +:+ key_to_find) in
  all_ratios ← load_saved_speed_ratios f;
  match all_ratios with
  | Mapping all_ratios =>
      match dict_get key_to_find all_ratios with
      | Some record => Ret (Found record)
      | None => Ret not_found
      end
  | ArrayValue elements =>
      if bool_decide (Some key_to_find ∈ elements)
      then Raise (Exn "TypeError"
                    "list indices must be integers or slices, not str")
      else Ret not_found
  | StringValue text =>
      if contains key_to_find text
      then Raise (Exn "TypeError" "string indices must be integers, not 'str'")
      else Ret not_found
  | ScalarValue type_name =>
      Raise (Exn "TypeError"
               ("argument of type '" +:+ type_name +:+ "' is not iterable"))
  end.

(** [get_speed_ratio_route()]; whatever the body raises is logged and
    answered with status 500. *)
Definition get_speed_ratio_route (f : ratios_file) (args : speed_ratio_query)
  : speed_ratio_response :=
  let model_name := default MODEL (q_model args) in
  let word_timestamps :=
    bool_decide (lower (default "true" (q_word_timestamps args)) = "true") in
  let highlight_words_param :=
    bool_decide (lower (default "true" (q_highlight_words args)) = "true") in
  let query_settings :=
    {| word_timestamps := Some word_timestamps;
       highlighting := Some highlight_words_param |} in
  match find_speed_ratio f (get_speed_test_key model_name query_settings) with
  | Ret response => response
  | Raise e => ServerError
  end.

(** ** The [/gen_one] route and the player *)

(** The JSON body of a [/gen_one] request; absent flags are [None]. *)
Record gen_one_request : Type := {
  one_book : string;
  one_mp3 : string;
  one_word_timestamps : option bool;
  one_highlighting : option bool;
}.

(** [stream_single_caption_route()]. *)
Definition stream_single_caption_route (w : world) (data : gen_one_request)
  : outcome response :=
  let book := one_book data in
  let mp3 := one_mp3 data in
  let enable_word_timestamps := default true (one_word_timestamps data) in
  let enable_highlighting := default true (one_highlighting data) in
  captioned ← path_exists w (caption_path w book mp3);
  if captioned : bool then mret (Text "exists")
  else mret (Stream (whisper_stream w book mp3
                       enable_word_timestamps enable_highlighting)).

(** [[m for m in list_mp3s(book) if caption_path(book, m).exists()]]. *)
Fixpoint captioned_tracks (w : world) (book : string) (mp3s : list string)
  : outcome (list string) :=
  match mp3s with
  | [] => mret []
  | m :: rest =>
      captioned ← path_exists w (caption_path w book m);
      more ← captioned_tracks w book rest;
      mret (if captioned : bool then m :: more else more)
  end.

Inductive player_response : Type :=
  | PlayerData (book : string) (tracks : list string) (start : string)
  | NoCaptionedTracks.

(** [player_data(book)]; [file] is [request.args.get("file")]. *)
Definition player_data (w : world) (book : string) (file : option string)
  : outcome player_response :=
  tracks ← captioned_tracks w book (list_mp3s w book);
  match tracks with
  | [] => mret NoCaptionedTracks
  | first :: _ =>
      let start :=
        match file with
        | Some f => if is_empty f then first else f
        | None => first
        end in
      mret (PlayerData book tracks start)
  end.

(** ** The test clip and the [/api/whisper/speed-test] route *)

(** One execution of [ffmpeg] by [subprocess.run(cmd, ..., timeout=30)]:
    what the call returns or raises, and the temporary file when the call
    is over ([None] when it is absent, its size otherwise). *)
Record ffmpeg_run : Type := {
  ff_result : outcome CompletedProcess;
  ff_leaves : option N;
}.

(** [if temp_path.exists(): temp_path.unlink()]: the file afterwards. *)
Definition unlink_if_exists (file : option N) : option N :=
  match file with
  | Some _ => None
  | None => None
  end.

(** [create_test_audio_clip(source_audio, duration_seconds)]; [temp_path]
    is the name given by [tempfile.NamedTemporaryFile].  The result is the
    returned path ([None] for Python's [None]) and the temporary file
    afterwards. *)
Definition create_test_audio_clip (ffmpeg : list string → ffmpeg_run)
    (temp_path source_audio : string) (duration_seconds : Z)
  : option string * option N :=
  let cmd := ["ffmpeg"; "-i"; source_audio; "-t"; str_of_Z duration_seconds;
              "-acodec"; "copy"; temp_path; "-y"; "-hide_banner";
              "-loglevel"; "error"] in
  let run := ffmpeg cmd in
  let file := ff_leaves run in
  match ff_result run with
  | Ret process =>
      if bool_decide (returncode process ≠ 0) then
        (None, unlink_if_exists file)
      else
        match file with
        | Some size =>
            if (0 <? size)%N then (Some temp_path, file)
            else (None, unlink_if_exists file)
        | None => (None, unlink_if_exists file)
        end
  | Raise e =>
      if bool_decide (exn_class e = "TimeoutExpired") then
        (None, unlink_if_exists file)
      else if bool_decide (exn_class e = "FileNotFoundError") then
        (None, unlink_if_exists file)
      else
        (None, unlink_if_exists file)
  end.

(** What the route answers once a source file has been chosen. *)
Inductive speed_test_response : Type :=
  | ClipFailed
  | SpeedTestOk (speed_ratio : float) (model_tested : string)
      (settings_tested_key_info : settings)
      (estimates : list (string * (float * float)))
  | SpeedTestFailed (error : option string) (model_tested : string)
      (settings_tested_key_info : settings)
  | SpeedTestError (error : string).

(** Lines 459 to 466: the estimates for the files the client sent, each
    with its [duration] if it sent one. *)
Definition current_book_estimates (speed_ratio : float)
    (file_info : list (string * option float))
  : list (string * (float * float)) :=
  omap (λ '(mp3_file_name, info),
          let duration := default 0%float info in
          if (0 <? duration)%float
          then Some (mp3_file_name, (duration, (duration / speed_ratio)%float))
          else None)
       file_info.

(** Lines 435 to 490 of [whisper_speed_test]: the clip, the benchmark,
    the decision to save, the answer, the clean-up in [finally], and the
    answer with status 500 when the save raises.
    [now] is [datetime.datetime.utcnow().isoformat()].  The result is the
    answer, the speed-ratio file and the temporary file afterwards. *)
Definition whisper_speed_test_run (caps : capabilities)
    (ffmpeg : list string → ffmpeg_run) (b : bench)
    (temp_path temp_dir source_audio_path : string)
    (test_settings : settings) (file_info : list (string * option float))
    (now : string) (wr : write_result) (f : ratios_file)
  : speed_test_response * ratios_file * option N :=
  match create_test_audio_clip ffmpeg temp_path source_audio_path 15 with
  | (None, file) => (ClipFailed, f, file)
  | (Some test_audio_clip_path, file) =>
      let speed_test_run_result :=
        test_whisper_speed caps b temp_dir test_audio_clip_path MODEL
          test_settings in
      if success speed_test_run_result
         && (0 <? speed_ratio speed_test_run_result)%float then
        let save_key := get_speed_test_key MODEL test_settings in
        let data_to_save :=
          {| sr_speed_ratio := speed_ratio speed_test_run_result;
             sr_model_tested := MODEL;
             sr_settings_key_info := test_settings;
             sr_test_audio_duration := audio_duration speed_test_run_result;
             sr_test_processing_time := processing_time speed_test_run_result;
             sr_timestamp := now +:+ "Z" |} in
        match save_speed_ratio_data wr save_key data_to_save f with
        | Ret saved =>
            (SpeedTestOk (speed_ratio speed_test_run_result) MODEL
               test_settings
               (current_book_estimates (speed_ratio speed_test_run_result)
                  file_info),
             saved, unlink_if_exists file)
        | Raise e => (SpeedTestError (exn_str e), f, unlink_if_exists file)
        end
      else
        (SpeedTestFailed (error speed_test_run_result) MODEL test_settings,
         f, unlink_if_exists file)
  end.

(** ** The caption-granularity check *)

(** [s.split(c)] for a one-character separator. *)
Fixpoint split_on (c : ascii) (s : string) : list string :=
  match s with
  | EmptyString => [EmptyString]
  | String a s' =>
      if bool_decide (a = c) then EmptyString :: split_on c s'
      else
        match split_on c s' with
        | first :: rest => String a first :: rest
        | [] => [String a EmptyString]
        end
  end.

(** [s.split(sep)] for a non-empty separator; [skip] counts the characters
    of a separator still to be passed over. *)
Fixpoint split_str_go (sep : string) (skip : nat) (s : string) : list string :=
  match s with
  | EmptyString => [EmptyString]
  | String a s' =>
      match skip with
      | S k => split_str_go sep k s'
      | O =>
          if startswith sep s then
            EmptyString :: split_str_go sep (String.length sep - 1) s'
          else
            match split_str_go sep 0 s' with
            | first :: rest => String a first :: rest
            | [] => [String a EmptyString]
            end
      end
  end.

Definition split_str (sep s : string) : list string := split_str_go sep 0 s.

(** [s.lstrip()] and [s.strip()]. *)
Fixpoint lstrip (s : string) : string :=
  match s with
  | EmptyString => EmptyString
  | String c s' => if isspace c then lstrip s' else s
  end.

Definition strip (s : string) : string := lstrip (rstrip s).

(** Lines 100 to 116 of [has_word_timestamps]: whether a line adds one to
    [word_level_indicators]; [float_of] is Python's [float], [None] for a
    [ValueError]. *)
Definition word_level_line (float_of : string → option float)
    (line : string) : bool :=
  if contains "<u>" line || contains "<c>" line
     || contains "<c.highlight>" line then true
  else if contains "-->" line then
    match split_str "-->" line with
    | [part0; part1] =>
        let start_str := strip part0 in
        let end_str := strip part1 in
        match float_of (List.last (split_on ":" start_str) EmptyString) with
        | None => false
        | Some start_time =>
            match float_of (List.last (split_on ":" end_str) EmptyString) with
            | None => false
            | Some end_time =>
                (0 <? end_time - start_time)%float
                && (end_time - start_time <? 2)%float
            end
        end
    | _ => false
    end
  else false.

(** [has_word_timestamps(vtt_path)]; [present] is [vtt_path.exists()] and
    [read_text] is [vtt_path.read_text(encoding='utf-8')]. *)
Definition has_word_timestamps (float_of : string → option float)
    (present : outcome bool) (read_text : outcome string) : outcome bool :=
  there ← present;
  if negb there then mret false
  else
    Py.try_except
      (content ← read_text;
       let lines := split_on (ascii_of_nat 10) content in
       let word_level_indicators :=
         length (filter (λ line, word_level_line float_of line = true) lines) in
       mret (bool_decide (3 ≤ word_level_indicators)%nat))
      (λ e, mret false).

(** Successive [save_speed_ratio_data] calls whose writes succeed. *)
Fixpoint put_all (puts : list (string * SpeedRecord)) (f : ratios_file)
  : outcome ratios_file :=
  match puts with
  | [] => Ret f
  | (key, data) :: puts =>
      f ← save_speed_ratio_data Written key data f;
      put_all puts f
  end.

(** ** Observations used in the statements *)

(** A chunk with nothing but whitespace in it. *)
Definition is_blank (chunk : string) : bool := is_empty (rstrip chunk).

(** What the consumer of [whisper_stream_parallel] receives for one item,
    lines 335 to 343. *)
Definition item_block (w : world) (book mp3 : string) : list string :=
  match transcribe_single w book mp3 with
  | Ret (mp3_name, output_lines) =>
      [LF +:+ "=== COMPLETED: " +:+ mp3_name +:+ " ===" +:+ LF]
      ++ output_lines
      ++ ["=== END: " +:+ mp3_name +:+ " ===" +:+ LF +:+ LF]
  | Raise e =>
      [LF +:+ "=== ERROR: " +:+ mp3 +:+ " ===" +:+ LF;
       "Exception: " +:+ exn_str e +:+ LF;
       "=== END ERROR: " +:+ mp3 +:+ " ===" +:+ LF +:+ LF]
  end.


(** ** A small world for the examples *)

Definition example_help : CompletedProcess :=
  {| stdout := "usage: whisper [--word_timestamps W] [--highlight_words H] audio";
     stderr := "";
     returncode := 0 |}.

Definition example_capabilities : capabilities :=
  {| word_timestamps_available := true;
     highlight_words_available := true;
     installed := true |}.

(** A run that prints a line, a blank line, a line of spaces and a cue. *)
Definition example_run : tool_run :=
  {| spawn := Ret 4711%nat;
     output := ["Detecting language"; ""; "   ";
                "[00:00.000 --> 00:02.000]  Hello  "];
     read_error := None;
     exit_code := 0;
     vtt_exists := Ret true;
     vtt_has_words := true |}.

(** Three files; [03.mp3] cannot be examined, so its worker raises. *)
Definition example_world : world :=
  {| BOOKS := "/srv/books";
     help_run := Ret example_help;
     list_mp3s := λ _, ["01.mp3"; "02.mp3"; "03.mp3"];
     path_exists := λ p,
       if bool_decide (p = "/srv/books/b/03.mp3")
       then Raise (Exn "PermissionError" "[Errno 13] Permission denied")
       else Ret (contains ".mp3" p);
     whisper := λ _, example_run;
     finish_order := λ _, [2; 0; 1]%nat |}.

Definition example_record (ratio : float) : SpeedRecord :=
  {| sr_speed_ratio := ratio;
     sr_model_tested := MODEL;
     sr_settings_key_info := {| word_timestamps := Some true; highlighting := Some true |};
     sr_test_audio_duration := 10%float;
     sr_test_processing_time := (10 / ratio)%float;
     sr_timestamp := "2025-06-01T12:00:00Z" |}.

(** A benchmark of a 10 second clip that takes 5 seconds. *)
Definition example_bench : bench :=
  {| start_time := 100%float;
     end_time := 105%float;
     bench_run := λ _, Ret {| stdout := ""; stderr := ""; returncode := 0 |};
     probed_duration := 10%float |}.

(** A world whose tool prints nothing, exits with 0 and leaves no caption
    file behind. *)
Definition silent_world : world :=
  {| BOOKS := "/srv/books";
     help_run := Ret example_help;
     list_mp3s := λ _, ["01.mp3"];
     path_exists := λ p, Ret (contains ".mp3" p);
     whisper := λ _, {| spawn := Ret 7%nat; output := [];
                        read_error := None; exit_code := 0;
                        vtt_exists := Ret false;
                        vtt_has_words := false |};
     finish_order := λ _, [0%nat] |}.

(** A benchmark whose tool invocation runs into the two-minute limit. *)
Definition timeout_bench : bench :=
  {| start_time := 0%float;
     end_time := 120%float;
     bench_run := λ _, Raise (Exn "TimeoutExpired" "timed out after 120 seconds");
     probed_duration := 15%float |}.

(** * Properties *)

(** ** Strings *)

Lemma append_cons (c : ascii) (s t : string) :
  String c s +:+ t = String c (s +:+ t).
Proof. reflexivity. Qed.

Lemma rstrip_app_LF (s : string) : rstrip (s +:+ LF) = rstrip s.
Proof.
  induction s as [|c s IH]; [reflexivity|].
  rewrite append_cons. simpl. by rewrite IH.
Qed.

Lemma rstrip_idem (s : string) : rstrip (rstrip s) = rstrip s.
Proof.
  induction s as [|c s IH]; [reflexivity|]. simpl.
  destruct (rstrip s) as [|d r] eqn:E.
  - destruct (isspace c) eqn:Ec; simpl; [done|]. by rewrite Ec.
  - change (rstrip (String c (String d r))) with
      (match rstrip (String d r) with
       | EmptyString => if isspace c then EmptyString else String c EmptyString
       | String a b => String c (String a b)
       end).
    by rewrite IH.
Qed.

Lemma is_blank_first (chunk : string) (c : ascii) (s : string) :
  chunk = String c s → isspace c = false → is_blank chunk = false.
Proof.
  intros -> Hc. unfold is_blank. simpl.
  destruct (rstrip s); [by rewrite Hc|done].
Qed.

Lemma is_blank_second (chunk : string) (c d : ascii) (s : string) :
  chunk = String c (String d s) → isspace d = false → is_blank chunk = false.
Proof.
  intros -> Hd. unfold is_blank.
  change (rstrip (String c (String d s))) with
    (match rstrip (String d s) with
     | EmptyString => if isspace c then EmptyString else String c EmptyString
     | String a b => String c (String a b)
     end).
  pose proof (is_blank_first (String d s) d s eq_refl Hd) as H.
  unfold is_blank in H. by destruct (rstrip (String d s)).
Qed.

(** The chunk made from a line that survives [rstrip] is not blank. *)
Lemma is_blank_emitted (l : string) :
  is_blank l = false → is_blank (rstrip l +:+ LF) = false.
Proof. unfold is_blank. by rewrite rstrip_app_LF, rstrip_idem. Qed.

Ltac nonblank :=
  first [ eapply is_blank_first; [reflexivity | reflexivity]
        | eapply is_blank_second; [reflexivity | reflexivity] ].

(** ** JobRegistry *)

Lemma jobs_after_app (t1 t2 : list event) (j : jobs) :
  jobs_after (t1 ++ t2) j = jobs_after t2 (jobs_after t1 j).
Proof. unfold jobs_after. apply foldl_app. Qed.

Lemma jobs_after_yields (chunks : list string) (j : jobs) :
  jobs_after (Yield <$> chunks) j = j.
Proof. induction chunks as [|c chunks IH]; [done|]. exact IH. Qed.

(** Once a key has been popped, events that do not set it again leave it
    absent. *)
Lemma jobs_after_absent (key : JobKey) (t : list event) (j : jobs) :
  j !! key = None →
  Forall (λ ev, ∀ proc, ev ≠ SetJob key proc) t →
  jobs_after t j !! key = None.
Proof.
  intros Hj Ht. revert j Hj.
  induction Ht as [|ev t Hev _ IH]; intros j Hj; [done|].
  unfold jobs_after in *. simpl. apply IH.
  destruct ev as [chunk|key' proc|key']; simpl; [done| |].
  - unfold jobs_setitem. rewrite lookup_insert_ne; [done|].
    intros ->. by apply (Hev proc).
  - unfold jobs_pop. rewrite lookup_delete. by case_decide.
Qed.

Lemma jobs_after_pop_last (key : JobKey) (t1 t2 : list event) (j : jobs) :
  Forall (λ ev, ∀ proc, ev ≠ SetJob key proc) t2 →
  jobs_after (t1 ++ PopJob key :: t2) j !! key = None.
Proof.
  intros Ht2. rewrite jobs_after_app.
  change (PopJob key :: t2) with ([PopJob key] ++ t2).
  rewrite jobs_after_app. apply jobs_after_absent; [|done].
  unfold jobs_after. simpl. unfold jobs_pop. apply lookup_delete_eq.
Qed.

Lemma consumed_0 (t : list event) : consumed 0 t = [].
Proof. by destruct t. Qed.

(** ** The probe and the runner *)

Lemma probe_returns (help_run : outcome CompletedProcess) :
  ∃ c, get_whisper_capabilities_cached help_run = Ret c.
Proof. destruct help_run; cbn; eauto. Qed.

(** The reading loop on the lines a tool wrote. *)
Lemma read_loop_lines (lines : list string) (err : option exn) :
  read_loop (readline_of <$> lines) err =
  Gen (Yield <$> ((λ l, rstrip l +:+ LF) <$>
                    filter (λ l, is_blank l = false) lines))
      (match err with None => Ret tt | Some e => Raise e end).
Proof.
  induction lines as [|l lines IH]; [by destruct err|].
  rewrite fmap_cons. simpl. rewrite IH. unfold readline_of.
  assert (is_empty (l +:+ LF) = false) as -> by by destruct l.
  rewrite rstrip_app_LF, filter_cons.
  destruct (is_empty (rstrip l)) eqn:E.
  - rewrite decide_False by (unfold is_blank; congruence). by destruct err.
  - rewrite decide_True by (unfold is_blank; congruence). by destruct err.
Qed.

Ltac tail_event :=
  first [ left; reflexivity
        | right; eexists; split; [reflexivity | nonblank] ].

Ltac tail_shape :=
  rewrite <- ?app_assoc; eexists; split_and!;
  [ reflexivity
  | done
  | repeat (apply Forall_cons; split; [nonblank|]); constructor
  | repeat (apply Forall_cons; split; [tail_event|]); constructor
  | repeat first [ apply list_elem_of_here | apply list_elem_of_further ]
  | done ].

(** The shape of a run that got as far as starting the process: four
    header chunks, the registration, the streamed lines, and a tail that
    pops the key and otherwise only yields. *)
Lemma whisper_stream_started (w : world) (book mp3 : string) (wt hl : bool)
    (caps : capabilities) (proc : Popen) :
  let run := whisper w (whisper_command w book mp3 wt hl caps) in
  path_exists w (path_join (path_join (BOOKS w) book) mp3) = Ret true →
  get_whisper_capabilities_cached (help_run w) = Ret caps →
  spawn run = Ret proc →
  ∃ header tail,
    trace (whisper_stream w book mp3 wt hl) =
      (Yield <$> header) ++ SetJob (book, mp3) proc
      :: (Yield <$> ((λ l, rstrip l +:+ LF) <$>
                       filter (λ l, is_blank l = false) (output run)))
      ++ tail
    ∧ length header = 4%nat
    ∧ Forall (λ c, is_blank c = false) header
    ∧ Forall (λ ev, ev = PopJob (book, mp3)
                    ∨ ∃ c, ev = Yield c ∧ is_blank c = false) tail
    ∧ PopJob (book, mp3) ∈ tail
    ∧ value (whisper_stream w book mp3 wt hl) = Ret tt.
Proof.
  intros run Hex Hcaps Hsp. unfold whisper_stream.
  rewrite Hex, Hcaps. cbn. fold run. rewrite Hsp.
  rewrite read_loop_lines. eexists [_; _; _; _].
  destruct (read_error run) as [e|]; cbn; [tail_shape|].
  destruct (vtt_exists run) as [[|]|e']; cbn; [| |tail_shape];
    destruct (bool_decide (exit_code run ≠ 0)); cbn; tail_shape.
Qed.

(** A run whose process does not start: the header, the exception line
    and the pop. *)
Lemma whisper_stream_not_started (w : world) (book mp3 : string) (wt hl : bool)
    (caps : capabilities) (e : exn) :
  let run := whisper w (whisper_command w book mp3 wt hl caps) in
  path_exists w (path_join (path_join (BOOKS w) book) mp3) = Ret true →
  get_whisper_capabilities_cached (help_run w) = Ret caps →
  spawn run = Raise e →
  ∃ header,
    trace (whisper_stream w book mp3 wt hl) =
      (Yield <$> header)
      ++ [Yield (LF +:+ "EXCEPTION: " +:+ exn_str e +:+ LF); PopJob (book, mp3)]
    ∧ Forall (λ c, is_blank c = false) header
    ∧ value (whisper_stream w book mp3 wt hl) = Ret tt.
Proof.
  intros run Hex Hcaps Hsp. unfold whisper_stream.
  rewrite Hex, Hcaps. cbn. fold run. rewrite Hsp. cbn.
  eexists [_; _; _; _]. split_and!; [reflexivity| |done].
  repeat (apply Forall_cons; split; [nonblank|]); constructor.
Qed.

(** A run that is driven to exhaustion has released its key when it
    ends: on normal completion, on a non-zero exit code, and when starting
    the process, reading from it or looking for the caption file raises. *)
Lemma whisper_stream_exhausted_releases (w : world) (book mp3 : string)
    (wt hl : bool) (proc : Popen) (j : jobs) :
  SetJob (book, mp3) proc ∈ trace (whisper_stream w book mp3 wt hl) →
  jobs_after (trace (whisper_stream w book mp3 wt hl)) j !! (book, mp3) = None.
Proof.
  intros Hreg.
  destruct (path_exists w (path_join (path_join (BOOKS w) book) mp3))
    as [[|]|e] eqn:Hex.
  - destruct (probe_returns (help_run w)) as [caps Hcaps].
    destruct (spawn (whisper w (whisper_command w book mp3 wt hl caps)))
      as [p|e] eqn:Hsp.
    + destruct (whisper_stream_started w book mp3 wt hl caps p Hex Hcaps Hsp)
        as (header & tail & -> & _ & _ & Htail & Hpop & _).
      apply list_elem_of_split in Hpop as (a & b & ->).
      rewrite (app_comm_cons _ _ (SetJob _ _)), !app_assoc.
      apply jobs_after_pop_last.
      apply Forall_app in Htail as [_ Htail].
      apply Forall_cons in Htail as [_ Htail].
      eapply Forall_impl; [exact Htail|].
      intros ev [->|(c & -> & _)] q; discriminate.
    + destruct (whisper_stream_not_started w book mp3 wt hl caps e Hex Hcaps Hsp)
        as (header & -> & _ & _).
      change [Yield ?c; PopJob ?k] with ([Yield c] ++ PopJob k :: []).
      rewrite app_assoc. apply jobs_after_pop_last. constructor.
  - unfold whisper_stream in Hreg. rewrite Hex in Hreg. cbn in Hreg.
    apply list_elem_of_singleton in Hreg. discriminate.
  - unfold whisper_stream in Hreg. rewrite Hex in Hreg. cbn in Hreg.
    by apply elem_of_nil in Hreg.
Qed.

(** ** C1: registration *)

(** C1, counterexample.  With [("b", "01.mp3")] registered under process
    4711, registering the same key under process 4712 does not fail: the
    specification's [register] answers AlreadyRunning, the code's
    assignment goes through and 4712 replaces 4711. *)
Lemma duplicate_register_replaces :
  let key : JobKey := ("b", "01.mp3") in
  let j1 := jobs_setitem key 4711%nat ∅ in
  let j2 := jobs_setitem key 4712%nat j1 in
  j1 !! key = Some 4711%nat
  ∧ spec_register key 4712%nat j1 = AlreadyRunning
  ∧ j2 !! key = Some 4712%nat
  ∧ j2 !! key ≠ j1 !! key.
Proof.
  cbv zeta. unfold spec_register, jobs_setitem.
  rewrite !lookup_insert_eq. done.
Qed.

(** C1, as the code has it: registration is an unconditional assignment
    to [_jobs].  Registering a key that is present succeeds, the new handle
    replaces the old one, the registry still has one entry for the key and
    every other key is left alone; and [whisper_stream] performs that
    assignment in every run whose source file exists and whose process
    starts, whatever [_jobs] holds. *)
Theorem register_overwrites (w : world) (book mp3 : string) (wt hl : bool)
    (key : JobKey) (old new proc : Popen) (j : jobs) :
  jobs_setitem key new (jobs_setitem key old j) !! key = Some new
  ∧ jobs_setitem key new (jobs_setitem key old j) = jobs_setitem key new j
  ∧ jobs_pop key (jobs_setitem key new j) = jobs_pop key j
  ∧ (path_exists w (path_join (path_join (BOOKS w) book) mp3) = Ret true →
     (∀ cmd, spawn (whisper w cmd) = Ret proc) →
     SetJob (book, mp3) proc ∈ trace (whisper_stream w book mp3 wt hl)).
Proof.
  unfold jobs_setitem, jobs_pop. split_and!.
  - apply lookup_insert_eq.
  - apply insert_insert_eq.
  - apply delete_insert_eq.
  - intros Hex Hsp.
    destruct (probe_returns (help_run w)) as [caps Hcaps].
    destruct (whisper_stream_started w book mp3 wt hl caps proc Hex Hcaps
                (Hsp _)) as (header & tail & -> & _).
    apply elem_of_app. right. apply list_elem_of_here.
Qed.

Lemma register_overwrites_witness :
  let key : JobKey := ("b", "01.mp3") in
  jobs_setitem key 4712%nat (jobs_setitem key 4711%nat ∅) !! key
    = Some 4712%nat
  ∧ SetJob key 4711%nat
      ∈ trace (whisper_stream example_world "b" "01.mp3" true true).
Proof.
  pose proof (register_overwrites example_world "b" "01.mp3" true true
                ("b", "01.mp3") 4711%nat 4712%nat 4711%nat ∅)
    as (H1 & _ & _ & H4).
  split; [exact H1|]. apply H4; [reflexivity | intros cmd; reflexivity].
Defined.

(** ** C2: release of the key *)

(** C2, at the failing input.  The consumer of a started run takes the
    four header chunks and the first streamed line and then closes the
    generator: the assignment to [_jobs] has happened, neither
    [_jobs.pop] is reached, and the key stays registered under the
    process of that run. *)
Theorem abandoned_run_keeps_key (w : world) (book mp3 : string)
    (wt hl : bool) (caps : capabilities) (proc : Popen) (j : jobs) :
  let run := whisper w (whisper_command w book mp3 wt hl caps) in
  path_exists w (path_join (path_join (BOOKS w) book) mp3) = Ret true →
  get_whisper_capabilities_cached (help_run w) = Ret caps →
  spawn run = Ret proc →
  filter (λ l, is_blank l = false) (output run) ≠ [] →
  let left_behind :=
    jobs_after (consumed 5 (trace (whisper_stream w book mp3 wt hl))) j in
  left_behind !! (book, mp3) = Some proc
  ∧ job_running book mp3 left_behind = true.
Proof.
  intros run Hex Hcaps Hsp Hout left_behind.
  assert (left_behind !! (book, mp3) = Some proc) as Hkept.
  { unfold left_behind.
    destruct (whisper_stream_started w book mp3 wt hl caps proc Hex Hcaps Hsp)
      as (header & tail & -> & Hlen & _).
    fold run. destruct (filter _ (output run)) as [|l ls]; [done|].
    destruct header as [|h1 [|h2 [|h3 [|h4 [|h5 header]]]]]; try discriminate.
    cbn. rewrite consumed_0. unfold jobs_setitem. apply lookup_insert_eq. }
  split; [exact Hkept|].
  unfold job_running. rewrite Hkept. by apply bool_decide_eq_true_2.
Qed.

Lemma abandoned_run_keeps_key_witness :
  jobs_after
    (consumed 5 (trace (whisper_stream example_world "b" "01.mp3" true true)))
    ∅ !! ("b", "01.mp3") = Some 4711%nat
  ∧ job_running "b" "01.mp3"
      (jobs_after
         (consumed 5
            (trace (whisper_stream example_world "b" "01.mp3" true true)))
         ∅) = true
  ∧ jobs_after (trace (whisper_stream example_world "b" "01.mp3" true true))
      ∅ !! ("b", "01.mp3") = None.
Proof.
  assert (filter (λ l, is_blank l = false)
            (output (whisper example_world
                       (whisper_command example_world "b" "01.mp3" true true
                          example_capabilities))) ≠ []) as Hout
    by (vm_compute; discriminate).
  pose proof (abandoned_run_keeps_key example_world "b" "01.mp3" true true
                example_capabilities 4711%nat ∅ eq_refl eq_refl eq_refl Hout)
    as [H1 H2].
  split_and!; [exact H1 | exact H2 |].
  - apply (whisper_stream_exhausted_releases _ _ _ _ _ 4711%nat).
    vm_compute. do 4 apply list_elem_of_further. apply list_elem_of_here.
Defined.

(** ** C3: the capability probe *)

(** C3, counterexample.  [whisper --help] prints its usage text and exits
    with status 2: the probe reports the tool as not installed, and both
    features as available, which is not the all-false value. *)
Lemma probe_nonzero_exit_not_all_false :
  let result := {| stdout := "";
                   stderr := "usage: whisper [--word_timestamps W] [--highlight_words H] audio";
                   returncode := 2 |} in
  get_whisper_capabilities_cached (Ret result)
    = Ret {| word_timestamps_available := true;
             highlight_words_available := true;
             installed := false |}
  ∧ get_whisper_capabilities_cached (Ret result) ≠ Ret no_capabilities
  ∧ spec_detect (Ret result) = no_capabilities.
Proof. split_and!; [reflexivity | discriminate | reflexivity]. Qed.

(** C3, as the code has it.  The probe never raises.  When running the
    tool raises (tool missing, timeout, any other exception) the result is
    the all-false value.  When the tool runs and exits with a non-zero
    code, [installed] is false and each feature flag tells whether its
    option name occurs in the captured help text. *)
Theorem probe_fails_soft (help_run : outcome CompletedProcess) :
  (∃ c, get_whisper_capabilities_cached help_run = Ret c)
  ∧ (∀ e, help_run = Raise e →
          get_whisper_capabilities_cached help_run = Ret no_capabilities)
  ∧ (∀ result, help_run = Ret result → returncode result ≠ 0 →
       get_whisper_capabilities_cached help_run =
       Ret {| word_timestamps_available :=
                contains "--word_timestamps" (stdout result +:+ stderr result);
              highlight_words_available :=
                contains "--highlight_words" (stdout result +:+ stderr result);
              installed := false |}).
Proof.
  split_and!.
  - apply probe_returns.
  - by intros e ->.
  - intros result -> Hrc. cbn. by rewrite bool_decide_eq_false_2.
Qed.

Lemma probe_fails_soft_witness :
  get_whisper_capabilities_cached (Raise tool_missing) = Ret no_capabilities
  ∧ get_whisper_capabilities_cached (Raise tool_timeout) = Ret no_capabilities
  ∧ get_whisper_capabilities_cached
      (Ret {| stdout := "--word_timestamps"; stderr := ""; returncode := 1 |})
    = Ret {| word_timestamps_available := true;
             highlight_words_available := false;
             installed := false |}.
Proof.
  split_and!.
  - apply (proj1 (proj2 (probe_fails_soft (Raise tool_missing))) tool_missing).
    reflexivity.
  - apply (proj1 (proj2 (probe_fails_soft (Raise tool_timeout))) tool_timeout).
    reflexivity.
  - refine (proj2 (proj2 (probe_fails_soft (Ret _)))
              {| stdout := "--word_timestamps"; stderr := ""; returncode := 1 |}
              eq_refl _).
    simpl. lia.
Defined.

(** ** C4: requested flags and capabilities *)

Lemma path_join_has_slash (a b : string) : contains "/" (path_join a b) = true.
Proof.
  unfold path_join. induction a as [|c a IH]; [reflexivity|].
  rewrite append_cons. simpl. rewrite IH. apply orb_true_r.
Qed.

Lemma path_join_not_option (a b opt : string) :
  contains "/" opt = false → path_join a b ≠ opt.
Proof. intros Hopt E. rewrite <- E, path_join_has_slash in Hopt. done. Qed.

(** C4, counterexample.  Highlighting is requested and available, word
    timestamps are not requested: the status line says highlighting is
    enabled, but [--highlight_words] is not on the command line, while it
    is there once word timestamps are requested too. *)
Lemma highlighting_needs_word_timestamps :
  let cmd wt := whisper_command example_world "b" "01.mp3" wt true
                  example_capabilities in
  true && highlight_words_available example_capabilities = true
  ∧ ("--highlight_words" ∉ cmd false)
  ∧ ("--highlight_words" ∈ cmd true).
Proof.
  cbv zeta. split_and!; [reflexivity| |];
    apply (bool_decide_unpack _); vm_compute; exact I.
Qed.

Ltac option_absent H :=
  rewrite ?elem_of_app, ?elem_of_cons, ?elem_of_nil in H;
  repeat match type of H with _ ∨ _ => destruct H as [H|H] end;
  first [ discriminate H
        | by symmetry in H; apply path_join_not_option in H
        | done ].

Ltac option_present :=
  rewrite ?elem_of_app, ?elem_of_cons; tauto.

(** C4, as the code has it.  [--word_timestamps] is passed exactly when
    word timestamps are requested and available.  [--highlight_words] is
    passed exactly when, in addition, highlighting is requested and
    available: it sits inside the word-timestamps branch, in the runner and
    in the benchmark alike. *)
Theorem feature_flags_nested (w : world) (book mp3 : string) (wt hl : bool)
    (caps : capabilities) (temp_dir test_audio_path model_to_test : string)
    (st : settings) :
  let word_ts := wt && word_timestamps_available caps in
  let highlight := word_ts && (hl && highlight_words_available caps) in
  let st_word_ts :=
    default true (word_timestamps st) && word_timestamps_available caps in
  let st_highlight :=
    st_word_ts
    && (default true (highlighting st) && highlight_words_available caps) in
  ("--word_timestamps" ∈ whisper_command w book mp3 wt hl caps
     ↔ word_ts = true)
  ∧ ("--highlight_words" ∈ whisper_command w book mp3 wt hl caps
     ↔ highlight = true)
  ∧ whisper_command w book mp3 wt hl caps =
      whisper_command w book mp3 false false caps
      ++ (if word_ts then ["--word_timestamps"; "True"] else [])
      ++ (if highlight then ["--highlight_words"; "True"] else [])
  ∧ speed_test_command caps temp_dir test_audio_path model_to_test st =
      ["whisper"; test_audio_path; "--model"; model_to_test;
       "--output_format"; "vtt"; "--output_dir"; temp_dir; "--fp16"; "False"]
      ++ (if st_word_ts then ["--word_timestamps"; "True"] else [])
      ++ (if st_highlight then ["--highlight_words"; "True"] else []).
Proof.
  cbv zeta. unfold whisper_command, speed_test_command. simpl.
  destruct (wt && word_timestamps_available caps),
           (hl && highlight_words_available caps),
           (default true (word_timestamps st) && word_timestamps_available caps),
           (default true (highlighting st) && highlight_words_available caps);
    simpl; (split_and!; [| |reflexivity..]);
    (split; [intros H; first [reflexivity | exfalso; option_absent H]
            | intros H; first [discriminate H | option_present]]).
Qed.

Lemma feature_flags_nested_witness :
  let cmd wt hl := whisper_command example_world "b" "01.mp3" wt hl
                     example_capabilities in
  ("--highlight_words" ∈ cmd true true)
  ∧ ("--word_timestamps" ∈ cmd true false)
  ∧ ¬ ("--highlight_words" ∈ cmd false true).
Proof.
  cbv zeta.
  pose proof (feature_flags_nested example_world "b" "01.mp3" true true
                example_capabilities "" "" ""
                {| word_timestamps := None; highlighting := None |})
    as (_ & H1 & _).
  pose proof (feature_flags_nested example_world "b" "01.mp3" true false
                example_capabilities "" "" ""
                {| word_timestamps := None; highlighting := None |})
    as (H2 & _).
  pose proof (feature_flags_nested example_world "b" "01.mp3" false true
                example_capabilities "" "" ""
                {| word_timestamps := None; highlighting := None |})
    as (_ & H3 & _).
  split_and!.
  - apply H1. reflexivity.
  - apply H2. reflexivity.
  - intros H. apply H3 in H. discriminate H.
Defined.

(** ** C5: the speed ratio *)




(** ** C6: the speed-ratio file *)

Lemma dict_get_set_eq {V} (key : string) (value : V) (d : list (string * V)) :
  dict_get key (dict_set key value d) = Some value.
Proof.
  induction d as [|[k v] d IH]; simpl.
  - by rewrite bool_decide_eq_true_2.
  - case_bool_decide as Hk; simpl.
    + by rewrite bool_decide_eq_true_2.
    + by rewrite bool_decide_eq_false_2.
Qed.

Lemma dict_get_set_ne {V} (key key' : string) (value : V)
    (d : list (string * V)) :
  key' ≠ key → dict_get key' (dict_set key value d) = dict_get key' d.
Proof.
  intros Hne. induction d as [|[k v] d IH]; simpl.
  - by rewrite bool_decide_eq_false_2.
  - case_bool_decide as Hk; simpl.
    + subst k. by rewrite !bool_decide_eq_false_2.
    + by rewrite IH.
Qed.

Lemma dict_set_set {V} (key : string) (v1 v2 : V) (d : list (string * V)) :
  dict_set key v2 (dict_set key v1 d) = dict_set key v2 d.
Proof.
  induction d as [|[k v] d IH]; simpl.
  - by rewrite bool_decide_eq_true_2.
  - case_bool_decide as Hk; simpl.
    + by rewrite bool_decide_eq_true_2.
    + rewrite bool_decide_eq_false_2 by done. by rewrite IH.
Qed.

(** A key that is new goes to the end. *)
Lemma dict_set_new {V} (key : string) (value : V) (d : list (string * V)) :
  dict_get key d = None → dict_set key value d = d ++ [(key, value)].
Proof.
  induction d as [|[k v] d IH]; simpl; [done|].
  case_bool_decide as Hk; [discriminate|]. intros H. by rewrite IH.
Qed.

(** A save over a file that loads as a dictionary. *)
Lemma save_mapping (wr : write_result) (key : string) (data : SpeedRecord)
    (f : ratios_file) (d : list (string * SpeedRecord)) :
  load_saved_speed_ratios f = Ret (Mapping d) →
  save_speed_ratio_data wr key data f
  = Ret (match wr with
         | Written => Stored (dict_set key data d)
         | WriteError left_behind => left_behind
         end).
Proof.
  intros H. unfold save_speed_ratio_data. rewrite H. simpl. by destruct wr.
Qed.

(** A save that returns has loaded a dictionary. *)
Lemma save_returned (wr : write_result) (key : string) (data : SpeedRecord)
    (f f' : ratios_file) :
  save_speed_ratio_data wr key data f = Ret f' →
  ∃ d, load_saved_speed_ratios f = Ret (Mapping d).
Proof.
  unfold save_speed_ratio_data.
  destruct (load_saved_speed_ratios f) as [[d| | |]|]; simpl; try discriminate.
  intros _. by exists d.
Qed.

Lemma put_all_loads (puts : list (string * SpeedRecord)) (f : ratios_file)
    (d : list (string * SpeedRecord)) :
  load_saved_speed_ratios f = Ret (Mapping d) →
  ∃ f', put_all puts f = Ret f'
        ∧ load_saved_speed_ratios f'
          = Ret (Mapping (foldl (λ d p, dict_set p.1 p.2 d) d puts)).
Proof.
  revert f d. induction puts as [|[k r] puts IH]; intros f d Hf; simpl.
  - by exists f.
  - rewrite (save_mapping Written k r f d Hf). simpl.
    apply (IH (Stored (dict_set k r d))). reflexivity.
Qed.

Lemma put_all_returned (puts : list (string * SpeedRecord))
    (f f' : ratios_file) :
  put_all puts f = Ret f' → puts ≠ [] →
  ∃ d, load_saved_speed_ratios f = Ret (Mapping d).
Proof.
  destruct puts as [|[k r] puts]; [done|]. simpl. intros H _.
  destruct (save_speed_ratio_data Written k r f) as [f1|e] eqn:Hsave;
    [|discriminate].
  by eapply save_returned.
Qed.

(** Keys that are not assigned keep what they had. *)
Lemma dict_set_all_other (puts : list (string * SpeedRecord))
    (d : list (string * SpeedRecord)) (key : string) :
  key ∉ puts.*1 →
  dict_get key (foldl (λ d p, dict_set p.1 p.2 d) d puts) = dict_get key d.
Proof.
  revert d. induction puts as [|[k r] puts IH]; intros d Hk; [done|].
  rewrite fmap_cons, not_elem_of_cons in Hk. destruct Hk as [Hne Hk].
  simpl. rewrite IH by done. by apply dict_get_set_ne.
Qed.

Lemma find_stored (d : list (string * SpeedRecord)) (f : ratios_file)
    (key : string) :
  load_saved_speed_ratios f = Ret (Mapping d) →
  find_speed_ratio f key
  = Ret (match dict_get key d with
         | Some record => Found record
         | None => NotFound ("No speed ratio found for key: " +:+ key)
         end).
Proof.
  intros H. unfold find_speed_ratio. rewrite H. simpl.
  by destruct (dict_get key d).
Qed.

(** C6.  With writes that succeed.  On a file that is absent, cannot be
    read, is not JSON or holds a JSON object, a save returns; whenever a
    save under a key returns, a second save under that key returns too
    and a lookup of the key then returns the second record.  A key that
    was never saved into a store that started out absent, unreadable or
    not JSON is answered NotFound.  One save rewrites the file as the
    loaded mapping with that one entry assigned, and every other key is
    answered as before.  On a file whose reading raises what the load
    does not catch (bytes that are not UTF-8), or whose JSON text is an
    array, a string, a number, [true], [false] or [null], the save raises
    before anything is written; on a file of the first kind, or one that
    holds such a scalar, [GET /api/speed-ratio] answers status 500. *)
Theorem store_last_write_wins (f f0 : ratios_file) (k : string)
    (r1 r2 : SpeedRecord) (puts : list (string * SpeedRecord))
    (d : list (string * SpeedRecord)) :
  (f = Missing ∨ f = Unreadable ∨ f = NotJson ∨ f = Stored d →
   ∃ f1, save_speed_ratio_data Written k r1 f = Ret f1)
  ∧ (∀ f1, save_speed_ratio_data Written k r1 f = Ret f1 →
       ∃ f2, save_speed_ratio_data Written k r2 f1 = Ret f2
             ∧ find_speed_ratio f2 k = Ret (Found r2))
  ∧ (f0 = Missing ∨ f0 = Unreadable ∨ f0 = NotJson → k ∉ puts.*1 →
     ∃ f', put_all puts f0 = Ret f'
           ∧ find_speed_ratio f' k
             = Ret (NotFound ("No speed ratio found for key: " +:+ k)))
  ∧ (load_saved_speed_ratios f = Ret (Mapping d) →
     save_speed_ratio_data Written k r1 f = Ret (Stored (dict_set k r1 d))
     ∧ ∀ k', k' ≠ k →
         find_speed_ratio (Stored (dict_set k r1 d)) k'
         = find_speed_ratio f k')
  ∧ (∀ e elements text type_name args,
       save_speed_ratio_data Written k r1 (Undecodable e) = Raise e
       ∧ save_speed_ratio_data Written k r1 (JsonArray elements)
         = Raise (Exn "TypeError"
                    "list indices must be integers or slices, not str")
       ∧ save_speed_ratio_data Written k r1 (JsonString text)
         = Raise (Exn "TypeError"
                    "'str' object does not support item assignment")
       ∧ save_speed_ratio_data Written k r1 (JsonScalar type_name)
         = Raise (Exn "TypeError"
                    ("'" +:+ type_name
                     +:+ "' object does not support item assignment"))
       ∧ get_speed_ratio_route (Undecodable e) args = ServerError
       ∧ get_speed_ratio_route (JsonScalar type_name) args = ServerError).
Proof.
  split_and!.
  - intros Hf.
    assert (∃ d1, load_saved_speed_ratios f = Ret (Mapping d1)) as [d1 Hd1].
    { destruct Hf as [-> | [-> | [-> | ->]]]; by eexists. }
    rewrite (save_mapping _ _ _ _ _ Hd1). by eexists.
  - intros f1 H1. destruct (save_returned _ _ _ _ _ H1) as [d1 Hd1].
    rewrite (save_mapping _ _ _ _ _ Hd1) in H1. injection H1 as <-.
    eexists. split; [reflexivity|].
    rewrite (find_stored (dict_set k r2 (dict_set k r1 d1))) by reflexivity.
    by rewrite dict_get_set_eq.
  - intros Hf0 Hk.
    assert (load_saved_speed_ratios f0 = Ret (Mapping [])) as Hd0.
    { by destruct Hf0 as [-> | [-> | ->]]. }
    destruct (put_all_loads puts f0 [] Hd0) as (f' & Hput & Hload).
    exists f'. split; [done|].
    rewrite (find_stored _ _ _ Hload).
    by rewrite dict_set_all_other.
  - intros Hd. split; [exact (save_mapping Written k r1 f d Hd)|].
    intros k' Hne.
    rewrite (find_stored (dict_set k r1 d)) by reflexivity.
    rewrite (find_stored d f) by done.
    by rewrite dict_get_set_ne.
  - intros e elements text type_name args. by split_and!.
Qed.

Lemma store_last_write_wins_witness :
  (∃ f', put_all [("small:True:True", example_record 3)] Missing = Ret f'
         ∧ find_speed_ratio f' "medium:True:True"
           = Ret (NotFound "No speed ratio found for key: medium:True:True"))
  ∧ find_speed_ratio
      (Stored (dict_set "medium:True:True" (example_record 2)
                 [("small:True:True", example_record 3)]))
      "small:True:True"
    = Ret (Found (example_record 3))
  ∧ save_speed_ratio_data Written "medium:True:True" (example_record 2)
      (JsonArray [])
    = Raise (Exn "TypeError"
               "list indices must be integers or slices, not str").
Proof.
  pose proof (store_last_write_wins
                (Stored [("small:True:True", example_record 3)]) Missing
                "medium:True:True" (example_record 2) (example_record 4)
                [("small:True:True", example_record 3)]
                [("small:True:True", example_record 3)])
    as (_ & _ & H3 & H4 & H5).
  split_and!.
  - apply H3; [by left|].
    apply (bool_decide_unpack _). vm_compute. exact I.
  - destruct (H4 eq_refl) as [_ H]. rewrite H by discriminate. reflexivity.
  - exact (proj1 (proj2 (H5 (Exn "UnicodeDecodeError" "") [] "" "NoneType"
                           {| q_model := None; q_word_timestamps := None;
                              q_highlight_words := None |}))).
Defined.

(** ** C9: the configuration key *)

Lemma list_ascii_app (a b : string) :
  String.list_ascii_of_string (a +:+ b)
  = String.list_ascii_of_string a ++ String.list_ascii_of_string b.
Proof.
  induction a as [|c a IH]; [reflexivity|].
  rewrite append_cons. simpl. by rewrite IH.
Qed.

Lemma list_ascii_inj (a b : string) :
  String.list_ascii_of_string a = String.list_ascii_of_string b → a = b.
Proof.
  intros H. rewrite <- (String.string_of_list_ascii_of_string a),
    <- (String.string_of_list_ascii_of_string b). by rewrite H.
Qed.

(** A trailing [":True"] or [":False"] can be read back off the end. *)
Lemma flag_suffix_inj (x y : string) (b b' : bool) :
  x +:+ ":" +:+ str_of_bool b = y +:+ ":" +:+ str_of_bool b' →
  x = y ∧ b = b'.
Proof.
  intros H.
  assert (b = b') as <-.
  { apply (f_equal String.list_ascii_of_string) in H.
    rewrite !list_ascii_app in H.
    apply (f_equal reverse) in H. rewrite !reverse_app in H.
    destruct b, b'; try reflexivity; simpl in H; discriminate H. }
  split; [|done].
  apply (f_equal String.list_ascii_of_string) in H.
  rewrite !list_ascii_app in H. apply app_inv_tail in H.
  by apply list_ascii_inj.
Qed.

Lemma append_assoc (a b c : string) : (a +:+ b) +:+ c = a +:+ b +:+ c.
Proof.
  induction a as [|x a IH]; [reflexivity|].
  rewrite !append_cons. by rewrite IH.
Qed.

(** C9.  Two configurations get the same key exactly when they have the
    same model name and the same word-timestamps and highlighting flags (an
    absent flag counting as true); hence a second benchmark of the same
    configuration is saved over the record of the first: the two saves in
    a row end as the second alone does, in the file they leave and, on a
    file that makes a save raise, in what they raise. *)
Theorem speed_test_key_injective (m1 m2 : string) (s1 s2 : settings) :
  (get_speed_test_key m1 s1 = get_speed_test_key m2 s2
   ↔ m1 = m2
     ∧ default true (word_timestamps s1) = default true (word_timestamps s2)
     ∧ default true (highlighting s1) = default true (highlighting s2))
  ∧ (m1 = m2
     ∧ default true (word_timestamps s1) = default true (word_timestamps s2)
     ∧ default true (highlighting s1) = default true (highlighting s2) →
     ∀ f r1 r2,
       (save_speed_ratio_data Written (get_speed_test_key m1 s1) r1 f
        ≫= save_speed_ratio_data Written (get_speed_test_key m2 s2) r2)
       = save_speed_ratio_data Written (get_speed_test_key m2 s2) r2 f).
Proof.
  assert (m1 = m2
     ∧ default true (word_timestamps s1) = default true (word_timestamps s2)
     ∧ default true (highlighting s1) = default true (highlighting s2) →
     get_speed_test_key m1 s1 = get_speed_test_key m2 s2) as Hsame.
  { intros (-> & Hw & Hh). unfold get_speed_test_key. by rewrite Hw, Hh. }
  split; [split; [|exact Hsame]|].
  - unfold get_speed_test_key. intros H.
    rewrite <- !(append_assoc _ ":" (str_of_bool _ +:+ _)) in H.
    rewrite <- !(append_assoc (_ +:+ ":") (str_of_bool _)) in H.
    apply flag_suffix_inj in H as [H Hh].
    rewrite !append_assoc in H.
    apply flag_suffix_inj in H as [Hm Hw]. done.
  - intros Hcfg f r1 r2. rewrite (Hsame Hcfg).
    unfold save_speed_ratio_data.
    destruct (load_saved_speed_ratios f) as [[d| | |]|]; simpl; try done.
    by rewrite dict_set_set.
Qed.

Lemma speed_test_key_injective_witness :
  get_speed_test_key "medium" {| word_timestamps := None; highlighting := Some true |}
  = get_speed_test_key "medium" {| word_timestamps := Some true; highlighting := None |}
  ∧ (save_speed_ratio_data Written "medium:True:True" (example_record 2) Missing
     ≫= save_speed_ratio_data Written "medium:True:True" (example_record 4))
    = save_speed_ratio_data Written "medium:True:True" (example_record 4) Missing.
Proof.
  pose proof (speed_test_key_injective "medium" "medium"
                {| word_timestamps := None; highlighting := Some true |}
                {| word_timestamps := Some true; highlighting := None |})
    as [H1 H2].
  split.
  - apply H1. by split_and!.
  - apply (H2 ltac:(by split_and!) Missing (example_record 2) (example_record 4)).
Defined.

(** ** C8: blank lines *)

Lemma yields_app (t1 t2 : list event) :
  yields (t1 ++ t2) = yields t1 ++ yields t2.
Proof.
  induction t1 as [|ev t1 IH]; [done|].
  destruct ev; simpl; by rewrite IH.
Qed.

Lemma yields_fmap (chunks : list string) : yields (Yield <$> chunks) = chunks.
Proof.
  induction chunks as [|c chunks IH]; [done|].
  rewrite fmap_cons. simpl. by rewrite IH.
Qed.

Lemma yields_tail_nonblank (key : JobKey) (tail : list event) :
  Forall (λ ev, ev = PopJob key ∨ ∃ c, ev = Yield c ∧ is_blank c = false) tail →
  Forall (λ c, is_blank c = false) (yields tail).
Proof.
  induction 1 as [|ev tail Hev _ IH]; [constructor|].
  destruct Hev as [->|(c & -> & Hc)]; simpl; [done|]. by constructor.
Qed.

Lemma streamed_nonblank (lines : list string) :
  Forall (λ c, is_blank c = false)
    ((λ l, rstrip l +:+ LF) <$> filter (λ l, is_blank l = false) lines).
Proof.
  apply Forall_fmap, Forall_forall. intros l Hl.
  apply list_elem_of_filter in Hl as [Hl _]. by apply is_blank_emitted.
Qed.

(** C8.  No chunk of the narration of [whisper_stream] is blank, in any
    world.  In a run that starts the process, the narration is the four
    header chunks, then the tool's lines with the blank and the
    whitespace-only ones left out, each stripped of trailing whitespace
    and in the order in which the tool wrote them, then the closing
    chunks. *)
Theorem narration_drops_blank_lines (w : world) (book mp3 : string)
    (wt hl : bool) (caps : capabilities) (proc : Popen) :
  let run := whisper w (whisper_command w book mp3 wt hl caps) in
  let narration := yields (trace (whisper_stream w book mp3 wt hl)) in
  Forall (λ c, is_blank c = false) narration
  ∧ (path_exists w (path_join (path_join (BOOKS w) book) mp3) = Ret true →
     get_whisper_capabilities_cached (help_run w) = Ret caps →
     spawn run = Ret proc →
     ∃ header trailer,
       length header = 4%nat
       ∧ narration =
           header
           ++ ((λ l, rstrip l +:+ LF) <$>
                 filter (λ l, is_blank l = false) (output run))
           ++ trailer).
Proof.
  cbv zeta. split.
  - destruct (path_exists w (path_join (path_join (BOOKS w) book) mp3))
      as [[|]|e] eqn:Hex.
    + destruct (probe_returns (help_run w)) as [caps' Hcaps].
      destruct (spawn (whisper w (whisper_command w book mp3 wt hl caps')))
        as [p|e] eqn:Hsp.
      * destruct (whisper_stream_started w book mp3 wt hl caps' p Hex Hcaps Hsp)
          as (header & tail & -> & _ & Hhead & Htail & _).
        rewrite yields_app, yields_fmap. simpl.
        rewrite yields_app, yields_fmap.
        repeat apply Forall_app_2; eauto using streamed_nonblank,
          yields_tail_nonblank.
      * destruct (whisper_stream_not_started w book mp3 wt hl caps' e Hex Hcaps Hsp)
          as (header & -> & Hhead & _).
        rewrite yields_app, yields_fmap. simpl.
        apply Forall_app_2; [done|].
        apply Forall_cons; split; [nonblank|constructor].
    + unfold whisper_stream. rewrite Hex. cbn.
      apply Forall_cons; split; [nonblank|constructor].
    + unfold whisper_stream. rewrite Hex. cbn. constructor.
  - intros Hex Hcaps Hsp.
    destruct (whisper_stream_started w book mp3 wt hl caps proc Hex Hcaps Hsp)
      as (header & tail & -> & Hlen & _).
    exists header, (yields tail). split; [done|].
    rewrite yields_app, yields_fmap. simpl.
    by rewrite yields_app, yields_fmap.
Qed.

Lemma narration_drops_blank_lines_witness :
  ∃ header trailer,
    length header = 4%nat
    ∧ yields (trace (whisper_stream example_world "b" "01.mp3" true true)) =
        header
        ++ ["Detecting language" +:+ LF;
            "[00:00.000 --> 00:02.000]  Hello" +:+ LF]
        ++ trailer.
Proof.
  apply (narration_drops_blank_lines example_world "b" "01.mp3" true true
           example_capabilities 4711%nat); reflexivity.
Defined.

(** ** C7: the parallel scheduler *)

Lemma for_each_yield (chunks : list string) :
  for_each chunks yield = Gen (Yield <$> chunks) (Ret tt).
Proof.
  induction chunks as [|c chunks IH]; [done|].
  simpl. rewrite IH. reflexivity.
Qed.

(** The loop over the finished futures emits one block per future and
    goes on after a future that raised. *)
Lemma completion_loop (w : world) (book : string) (done : list string) :
  for_each ((λ mp3, (transcribe_single w book mp3, mp3)) <$> done)
    (λ '(future, mp3),
       Gen.try_except
         ('(mp3_name, output_lines) ← call future;
          yield (LF +:+ "=== COMPLETED: " +:+ mp3_name +:+ " ===" +:+ LF);;
          for_each output_lines yield;;
          yield ("=== END: " +:+ mp3_name +:+ " ===" +:+ LF +:+ LF))
         (λ e,
            yield (LF +:+ "=== ERROR: " +:+ mp3 +:+ " ===" +:+ LF);;
            yield ("Exception: " +:+ exn_str e +:+ LF);;
            yield ("=== END ERROR: " +:+ mp3 +:+ " ===" +:+ LF +:+ LF)))
  = Gen (Yield <$> mjoin (item_block w book <$> done)) (Ret tt).
Proof.
  match goal with |- for_each _ ?b = _ => set (body := b) end.
  assert (∀ mp3, body (transcribe_single w book mp3, mp3)
                 = Gen (Yield <$> item_block w book mp3) (Ret tt)) as Hstep.
  { intros mp3. unfold body, item_block.
    destruct (transcribe_single w book mp3) as [[mp3_name output_lines]|e];
      cbn; [|reflexivity].
    rewrite for_each_yield. cbn. by rewrite fmap_app. }
  induction done as [|mp3 done IH]; [done|].
  rewrite !fmap_cons.
  change (for_each ((transcribe_single w book mp3, mp3) :: ?l) body)
    with (body (transcribe_single w book mp3, mp3) ≫= λ _, for_each l body).
  rewrite IH, Hstep. cbn. by rewrite fmap_app.
Qed.



Lemma as_completed_fmap (A B : Type) (f : A → B) (order : list nat)
    (l : list A) :
  as_completed order (f <$> l) = f <$> as_completed order l.
Proof.
  unfold as_completed. induction order as [|i order IH]; [done|].
  csimpl. rewrite list_lookup_fmap, IH. by destruct (l !! i).
Qed.











(** ** C10: the flags of a batch request *)

Lemma bind_returned {A B} (m : gen A) (f : A → gen B) (a : A) :
  value m = Ret a →
  m ≫= f = Gen (trace m ++ trace (f a)) (value (f a)).
Proof. intros H. unfold mbind, gen_bind. by rewrite H. Qed.

Lemma bind_raised {A B} (m : gen A) (f : A → gen B) (e : exn) :
  value m = Raise e → m ≫= f = Gen (trace m) (Raise e).
Proof. intros H. unfold mbind, gen_bind. by rewrite H. Qed.

(** A run returns when looking at its source file does. *)
Lemma whisper_stream_returns (w : world) (book mp3 : string) (wt hl : bool)
    (present : bool) :
  path_exists w (path_join (path_join (BOOKS w) book) mp3) = Ret present →
  value (whisper_stream w book mp3 wt hl) = Ret tt.
Proof.
  intros Hex. destruct present.
  - destruct (probe_returns (help_run w)) as [caps Hcaps].
    destruct (spawn (whisper w (whisper_command w book mp3 wt hl caps)))
      as [p|e] eqn:Hsp.
    + by destruct (whisper_stream_started w book mp3 wt hl caps p Hex Hcaps Hsp)
        as (header & tail & _ & _ & _ & _ & _ & ->).
    + by destruct (whisper_stream_not_started w book mp3 wt hl caps e Hex Hcaps Hsp)
        as (header & _ & _ & ->).
  - unfold whisper_stream. rewrite Hex. reflexivity.
Qed.

(** One round of the sequential batch: the banner, the run, the rest. *)
Lemma batch_cons (w : world) (book mp3 : string) (rest : list string)
    (wt hl : bool) (present : bool) :
  path_exists w (path_join (path_join (BOOKS w) book) mp3) = Ret present →
  batch w book (mp3 :: rest) wt hl =
  Gen ((Yield (LF +:+ "=== " +:+ mp3 +:+ " ===" +:+ LF)
        :: trace (whisper_stream w book mp3 wt hl))
       ++ trace (batch w book rest wt hl))
      (value (batch w book rest wt hl)).
Proof.
  intros Hex. pose proof (whisper_stream_returns w book mp3 wt hl present Hex)
    as Hret.
  change (batch w book (mp3 :: rest) wt hl)
    with ((yield (LF +:+ "=== " +:+ mp3 +:+ " ===" +:+ LF)
             ≫= λ _, whisper_stream w book mp3 wt hl)
            ≫= λ _, batch w book rest wt hl).
  assert (yield (LF +:+ "=== " +:+ mp3 +:+ " ===" +:+ LF)
            ≫= (λ _, whisper_stream w book mp3 wt hl)
          = Gen (Yield (LF +:+ "=== " +:+ mp3 +:+ " ===" +:+ LF)
                 :: trace (whisper_stream w book mp3 wt hl)) (Ret tt)) as ->.
  { rewrite (bind_returned (yield _) _ tt eq_refl). by rewrite Hret. }
  by rewrite (bind_returned (Gen _ (Ret tt)) _ tt eq_refl).
Qed.

(** The narration of the sequential batch when looking at each source
    file returns. *)
Lemma batch_narration (w : world) (book : string) (files : list string)
    (wt hl : bool) :
  Forall (λ mp3, ∃ present,
            path_exists w (path_join (path_join (BOOKS w) book) mp3)
            = Ret present) files →
  yields (trace (batch w book files wt hl)) =
    mjoin ((λ mp3, (LF +:+ "=== " +:+ mp3 +:+ " ===" +:+ LF)
                   :: yields (trace (whisper_stream w book mp3 wt hl)))
             <$> files).
Proof.
  induction 1 as [|mp3 rest [present Hex] _ IH]; [done|].
  rewrite (batch_cons w book mp3 rest wt hl present Hex).
  cbn [trace]. rewrite yields_app, IH. reflexivity.
Qed.

(** The block of an item in terms of the run its worker drains. *)
Lemma item_block_of_run (w : world) (book mp3 : string) :
  item_block w book mp3 =
  let run := whisper_stream w book mp3 true true in
  match value run with
  | Ret _ =>
      [LF +:+ "=== COMPLETED: " +:+ mp3 +:+ " ===" +:+ LF]
      ++ ((λ line, "[" +:+ mp3 +:+ "] " +:+ line) <$> yields (trace run))
      ++ ["=== END: " +:+ mp3 +:+ " ===" +:+ LF +:+ LF]
  | Raise e =>
      [LF +:+ "=== ERROR: " +:+ mp3 +:+ " ===" +:+ LF;
       "Exception: " +:+ exn_str e +:+ LF;
       "=== END ERROR: " +:+ mp3 +:+ " ===" +:+ LF +:+ LF]
  end.
Proof.
  unfold item_block, transcribe_single. cbv zeta.
  by destruct (value (whisper_stream w book mp3 true true)).
Qed.

(** What the parallel scheduler sends, for any worker count. *)
Lemma parallel_narration (w : world) (book : string)
    (mp3_files : list string) (max_workers : Z) :
  yields (trace (whisper_stream_parallel w book mp3_files max_workers)) =
    ("Starting parallel transcription of " +:+
     str_of_nat (length mp3_files) +:+ " files with " +:+
     str_of_Z max_workers +:+ " workers" +:+ LF +:+ LF)
    :: (if 0 <? max_workers
        then mjoin (item_block w book <$>
                      as_completed (finish_order w mp3_files) mp3_files)
        else []).
Proof.
  unfold whisper_stream_parallel, ThreadPoolExecutor.
  destruct (Z.ltb_spec 0 max_workers) as [Hpos | Hneg].
  - rewrite (proj2 (Z.leb_gt _ _) Hpos).
    rewrite as_completed_fmap, completion_loop.
    cbn [mbind gen_bind call yield trace value yields app].
    by rewrite yields_fmap.
  - rewrite (proj2 (Z.leb_le _ _) Hneg). reflexivity.
Qed.

(** C10.  When [/gen_all] takes the parallel branch, the response is
    [whisper_stream_parallel(book, files, max_workers)], and what it sends
    does not depend on the request's [word_timestamps] and [highlighting]:
    after the start line comes, for each finished item, the block made
    from the run [whisper_stream(book, mp3)] with both flags at their
    default, true (its tagged lines between the completion banner and the
    end banner, or the error block with what it raised); with a worker
    count that is not positive only the start line is sent.  When the
    route takes the sequential branch, the response is [batch()], which
    sends for each file its banner and then the run [whisper_stream(book,
    mp3, word_timestamps, highlighting)] with the flags of the request. *)
Theorem parallel_path_drops_flags (w : world) (d d' : gen_all_request)
    (files : list string) :
  uncaptioned w (req_book d) (list_mp3s w (req_book d)) = Ret files →
  req_book d' = req_book d →
  req_max_workers d' = req_max_workers d →
  let book := req_book d in
  let max_workers := default 2 (req_max_workers d) in
  let worker_block mp3 :=
    let run := whisper_stream w book mp3 true true in
    match value run with
    | Ret _ =>
        [LF +:+ "=== COMPLETED: " +:+ mp3 +:+ " ===" +:+ LF]
        ++ ((λ line, "[" +:+ mp3 +:+ "] " +:+ line) <$> yields (trace run))
        ++ ["=== END: " +:+ mp3 +:+ " ===" +:+ LF +:+ LF]
    | Raise e =>
        [LF +:+ "=== ERROR: " +:+ mp3 +:+ " ===" +:+ LF;
         "Exception: " +:+ exn_str e +:+ LF;
         "=== END ERROR: " +:+ mp3 +:+ " ===" +:+ LF +:+ LF]
    end in
  (default false (req_parallel d) = true →
   default false (req_parallel d') = true →
   (1 < length files)%nat →
   let g := whisper_stream_parallel w book files max_workers in
   stream_book_captions_route w d = Ret (Stream g)
   ∧ stream_book_captions_route w d' = Ret (Stream g)
   ∧ yields (trace g) =
       ("Starting parallel transcription of " +:+
        str_of_nat (length files) +:+ " files with " +:+
        str_of_Z max_workers +:+ " workers" +:+ LF +:+ LF)
       :: (if 0 <? max_workers
           then mjoin (worker_block <$>
                         as_completed (finish_order w files) files)
           else []))
  ∧ (files ≠ [] →
     default false (req_parallel d) = false ∨ (length files ≤ 1)%nat →
     let wt := default true (req_word_timestamps d) in
     let hl := default true (req_highlighting d) in
     let g := batch w book files wt hl in
     stream_book_captions_route w d = Ret (Stream g)
     ∧ (Forall (λ mp3, ∃ present,
                  path_exists w (path_join (path_join (BOOKS w) book) mp3)
                  = Ret present) files →
        yields (trace g) =
          mjoin ((λ mp3, (LF +:+ "=== " +:+ mp3 +:+ " ===" +:+ LF)
                         :: yields (trace (whisper_stream w book mp3 wt hl)))
                   <$> files))).
Proof.
  intros Hfiles Hbook Hworkers. cbv zeta. split.
  - intros Hpar Hpar' Hlen.
    assert (∀ d0, req_book d0 = req_book d →
              req_max_workers d0 = req_max_workers d →
              default false (req_parallel d0) = true →
              stream_book_captions_route w d0 =
              Ret (Stream (whisper_stream_parallel w (req_book d) files
                             (default 2 (req_max_workers d))))) as Hroute.
    { intros d0 Hb Hw Hp. unfold stream_book_captions_route.
      rewrite Hb, Hw, Hfiles, Hp.
      cbn -[whisper_stream_parallel batch].
      rewrite bool_decide_eq_false_2 by (intros ->; simpl in Hlen; lia).
      rewrite (bool_decide_eq_true_2 _ Hlen). done. }
    split_and!.
    + by apply Hroute.
    + by apply Hroute.
    + rewrite parallel_narration. f_equal.
      destruct (0 <? default 2 (req_max_workers d)); [|done]. f_equal.
      apply list_fmap_ext. intros _ mp3 _. apply item_block_of_run.
  - intros Hne Hseq. split; [|apply batch_narration].
    unfold stream_book_captions_route.
    rewrite Hfiles. cbn -[whisper_stream_parallel batch].
    rewrite (bool_decide_eq_false_2 _ Hne).
    destruct Hseq as [-> | Hlen]; [done|].
    rewrite (bool_decide_eq_false_2 (1 < length files)%nat) by lia.
    by rewrite andb_false_r.
Qed.

Lemma parallel_path_drops_flags_witness :
  let request parallel :=
    {| req_book := "b"; req_parallel := parallel; req_max_workers := None;
       req_word_timestamps := Some false; req_highlighting := Some false |} in
  (stream_book_captions_route example_world (request (Some true))
   = Ret (Stream (whisper_stream_parallel example_world "b"
                    ["01.mp3"; "02.mp3"; "03.mp3"] 2))
   ∧ "[01.mp3] Word timestamps: enabled" +:+ LF
     ∈ yields (trace (whisper_stream_parallel example_world "b"
                        ["01.mp3"; "02.mp3"; "03.mp3"] 2)))
  ∧ (stream_book_captions_route silent_world (request None)
     = Ret (Stream (batch silent_world "b" ["01.mp3"] false false))
     ∧ "Word timestamps: disabled" +:+ LF
       ∈ yields (trace (batch silent_world "b" ["01.mp3"] false false))).
Proof.
  cbv zeta.
  pose proof (parallel_path_drops_flags example_world
    {| req_book := "b"; req_parallel := Some true; req_max_workers := None;
       req_word_timestamps := Some false; req_highlighting := Some false |}
    {| req_book := "b"; req_parallel := Some true; req_max_workers := None;
       req_word_timestamps := None; req_highlighting := None |}
    ["01.mp3"; "02.mp3"; "03.mp3"] eq_refl eq_refl eq_refl) as (H1 & _).
  pose proof (parallel_path_drops_flags silent_world
    {| req_book := "b"; req_parallel := None; req_max_workers := None;
       req_word_timestamps := Some false; req_highlighting := Some false |}
    {| req_book := "b"; req_parallel := None; req_max_workers := None;
       req_word_timestamps := Some false; req_highlighting := Some false |}
    ["01.mp3"] eq_refl eq_refl eq_refl) as (_ & H2).
  cbv zeta in H1, H2. split.
  - destruct H1 as (Hroute & _ & Hsent);
      [reflexivity | reflexivity | simpl; lia |].
    split; [exact Hroute|].
    refine (eq_ind_r (λ sent, _ ∈ sent) _ Hsent).
    apply (bool_decide_unpack _). vm_compute. exact I.
  - destruct H2 as (Hroute & Hsent); [discriminate | by left |].
    split; [exact Hroute|].
    refine (eq_ind_r (λ sent, _ ∈ sent) _ (Hsent _)).
    + apply (bool_decide_unpack _). vm_compute. exact I.
    + apply Forall_cons. split; [by eexists|]. constructor.
Defined.

(** * Further properties of the code *)

(** ** The runner and the registry *)

(** A run that reads its tool to the end without an exception, spelled
    out: header, registration, streamed lines, release, the report on the
    caption file and the status line. *)
Lemma whisper_stream_completed (w : world) (book mp3 : string) (wt hl : bool)
    (caps : capabilities) (proc : Popen) (created : bool) :
  let run := whisper w (whisper_command w book mp3 wt hl caps) in
  path_exists w (path_join (path_join (BOOKS w) book) mp3) = Ret true →
  get_whisper_capabilities_cached (help_run w) = Ret caps →
  spawn run = Ret proc →
  read_error run = None →
  vtt_exists run = Ret created →
  trace (whisper_stream w book mp3 wt hl) =
    (Yield <$>
       ["Starting Whisper transcription for: " +:+ mp3 +:+ LF;
        "Command: " +:+ join " " (whisper_command w book mp3 wt hl caps) +:+ LF;
        "Word timestamps: " +:+
          enabled_str (wt && word_timestamps_available caps) +:+ LF;
        "Word highlighting: " +:+
          enabled_str (hl && highlight_words_available caps) +:+ LF +:+ LF])
    ++ SetJob (book, mp3) proc
    :: (Yield <$> ((λ l, rstrip l +:+ LF) <$>
                     filter (λ l, is_blank l = false) (output run)))
    ++ PopJob (book, mp3)
    :: (Yield <$>
          ((if created then
              [LF +:+ "SUCCESS: VTT file created at " +:+
                 caption_path w book mp3 +:+ LF;
               "Word-level timestamps: " +:+
                 (if vtt_has_words run then "Yes" else "No") +:+ LF]
            else
              [LF +:+ "WARNING: Expected VTT file not found at " +:+
                 caption_path w book mp3 +:+ LF])
           ++ [if bool_decide (exit_code run ≠ 0) then
                 LF +:+ "ERROR: Whisper process failed with exit code " +:+
                   str_of_Z (exit_code run) +:+ LF
               else LF +:+ "[DONE " +:+ mp3 +:+ " - SUCCESS]" +:+ LF])).
Proof.
  intros run Hex Hcaps Hsp Herr Hvtt. unfold whisper_stream.
  rewrite Hex, Hcaps. cbn. fold run. rewrite Hsp.
  rewrite read_loop_lines, Herr, Hvtt. cbn.
  destruct created, (bool_decide (exit_code run ≠ 0)); cbn;
    rewrite <- ?app_assoc; reflexivity.
Qed.

(** Every event of a run is a [yield] or a write to the run's own key. *)
Lemma whisper_stream_events (w : world) (book mp3 : string) (wt hl : bool) :
  Forall (λ ev, (∃ c, ev = Yield c) ∨ (∃ p, ev = SetJob (book, mp3) p)
                ∨ ev = PopJob (book, mp3))
    (trace (whisper_stream w book mp3 wt hl)).
Proof.
  destruct (path_exists w (path_join (path_join (BOOKS w) book) mp3))
    as [[|]|e] eqn:Hex.
  - destruct (probe_returns (help_run w)) as [caps Hcaps].
    destruct (spawn (whisper w (whisper_command w book mp3 wt hl caps)))
      as [p|e] eqn:Hsp.
    + destruct (whisper_stream_started w book mp3 wt hl caps p Hex Hcaps Hsp)
        as (header & tail & -> & _ & _ & Htail & _).
      apply Forall_app_2; [apply Forall_fmap, Forall_true; simpl; eauto|].
      apply Forall_cons; split; [eauto|].
      apply Forall_app_2; [apply Forall_fmap, Forall_true; simpl; eauto|].
      eapply Forall_impl; [exact Htail|].
      intros ev [->|(c & -> & _)]; eauto.
    + destruct (whisper_stream_not_started w book mp3 wt hl caps e Hex Hcaps Hsp)
        as (header & -> & _).
      apply Forall_app_2; [apply Forall_fmap, Forall_true; simpl; eauto|].
      repeat (apply Forall_cons; split; [eauto|]). constructor.
  - unfold whisper_stream. rewrite Hex. cbn.
    apply Forall_cons; split; [eauto|constructor].
  - unfold whisper_stream. rewrite Hex. cbn. constructor.
Qed.

Lemma consumed_sublist (n : nat) (t : list event) (P : event → Prop) :
  Forall P t → Forall P (consumed n t).
Proof.
  intros Ht. revert n. induction Ht as [|ev t Hev _ IH]; intros n.
  - destruct n; constructor.
  - destruct n as [|n]; [constructor|].
    destruct ev; simpl; constructor; auto.
Qed.

Lemma consumed_all (t : list event) : consumed (S (length t)) t = t.
Proof.
  induction t as [|ev t IH]; [done|].
  assert (∀ m, length t < m → consumed m t = t)%nat as Hmore.
  { clear IH. induction t as [|ev' t IH]; intros m Hm; [by destruct m|].
    destruct m as [|m]; [simpl in Hm; lia|].
    destruct ev'; simpl; f_equal; apply IH; simpl in Hm; lia. }
  destruct ev; simpl; f_equal; apply Hmore; lia.
Qed.

Lemma jobs_after_other_keys (key key' : JobKey) (t : list event) (j : jobs) :
  key' ≠ key →
  Forall (λ ev, (∃ c, ev = Yield c) ∨ (∃ p, ev = SetJob key p)
                ∨ ev = PopJob key) t →
  jobs_after t j !! key' = j !! key'.
Proof.
  intros Hne Ht. revert j. induction Ht as [|ev t Hev _ IH]; intros j; [done|].
  unfold jobs_after in *. simpl. rewrite IH.
  destruct Hev as [(c & ->)|[(p & ->)| ->]]; simpl; [done| |].
  - unfold jobs_setitem. by rewrite lookup_insert_ne.
  - unfold jobs_pop. by rewrite lookup_delete_ne.
Qed.

Lemma whisper_stream_clears_key (w : world) (book mp3 : string)
    (wt hl : bool) (j : jobs) :
  path_exists w (path_join (path_join (BOOKS w) book) mp3) = Ret true →
  jobs_after (trace (whisper_stream w book mp3 wt hl)) j !! (book, mp3) = None.
Proof.
  intros Hex.
  destruct (probe_returns (help_run w)) as [caps Hcaps].
  destruct (spawn (whisper w (whisper_command w book mp3 wt hl caps)))
    as [p|e] eqn:Hsp.
  - apply (whisper_stream_exhausted_releases _ _ _ _ _ p).
    destruct (whisper_stream_started w book mp3 wt hl caps p Hex Hcaps Hsp)
      as (header & tail & -> & _).
    apply elem_of_app. right. apply list_elem_of_here.
  - destruct (whisper_stream_not_started w book mp3 wt hl caps e Hex Hcaps Hsp)
      as (header & -> & _).
    change [Yield ?c; PopJob ?k] with ([Yield c] ++ PopJob k :: []).
    rewrite app_assoc. apply jobs_after_pop_last. constructor.
Qed.

Lemma job_running_absent (book mp3 : string) (j : jobs) :
  j !! (book, mp3) = None → job_running book mp3 j = false.
Proof.
  intros H. unfold job_running. rewrite H. apply bool_decide_eq_false_2.
  by intros [x Hx].
Qed.

(** X1.  A run driven to exhaustion on a source file that exists leaves
    its own key absent from [_jobs], whatever the registry held before:
    also an entry that another run of the same file had made, and also
    when its own process never started. *)
Theorem exhausted_run_clears_key (w : world) (book mp3 : string)
    (wt hl : bool) (j : jobs) :
  path_exists w (path_join (path_join (BOOKS w) book) mp3) = Ret true →
  jobs_after (trace (whisper_stream w book mp3 wt hl)) j !! (book, mp3) = None
  ∧ job_running book mp3
      (jobs_after (trace (whisper_stream w book mp3 wt hl)) j) = false.
Proof.
  intros Hex.
  pose proof (whisper_stream_clears_key w book mp3 wt hl j Hex) as Hgone.
  split; [exact Hgone|]. by apply job_running_absent.
Qed.

Lemma exhausted_run_clears_key_witness :
  job_running "b" "01.mp3"
    (jobs_after (trace (whisper_stream example_world "b" "01.mp3" true true))
       {[("b", "01.mp3") := 17%nat]}) = false.
Proof.
  apply (exhausted_run_clears_key example_world "b" "01.mp3" true true).
  reflexivity.
Defined.

(** X2.  A run writes to no key but its own: at every point at which its
    consumer can stop, and at its end, every other key of [_jobs] holds
    what it held before the run. *)
Theorem run_leaves_other_keys (w : world) (book mp3 : string) (wt hl : bool)
    (key' : JobKey) (n : nat) (j : jobs) :
  key' ≠ (book, mp3) →
  jobs_after (consumed n (trace (whisper_stream w book mp3 wt hl))) j !! key'
    = j !! key'
  ∧ jobs_after (trace (whisper_stream w book mp3 wt hl)) j !! key' = j !! key'.
Proof.
  intros Hne. split.
  - apply (jobs_after_other_keys (book, mp3)); [done|].
    apply consumed_sublist, whisper_stream_events.
  - apply (jobs_after_other_keys (book, mp3)); [done|].
    apply whisper_stream_events.
Qed.

Lemma run_leaves_other_keys_witness :
  jobs_after (trace (whisper_stream example_world "b" "01.mp3" true true))
    {[("b", "02.mp3") := 17%nat]} !! ("b", "02.mp3") = Some 17%nat.
Proof.
  rewrite (proj2 (run_leaves_other_keys example_world "b" "01.mp3" true true
                    ("b", "02.mp3") 0 {[("b", "02.mp3") := 17%nat]}
                    ltac:(discriminate))).
  apply lookup_singleton_eq.
Defined.

Lemma consumed_yields_le (n : nat) (chunks : list string) (t : list event) :
  (n ≤ length chunks)%nat →
  consumed n ((Yield <$> chunks) ++ t) = Yield <$> take n chunks.
Proof.
  revert n. induction chunks as [|c chunks IH]; intros n Hn.
  - simpl in Hn. assert (n = 0%nat) as -> by lia. apply consumed_0.
  - destruct n as [|n]; [done|].
    rewrite fmap_cons. simpl. f_equal. apply IH. simpl in Hn. lia.
Qed.

Lemma consumed_yields_gt (n : nat) (chunks : list string) (t : list event) :
  consumed (length chunks + n) ((Yield <$> chunks) ++ t)
  = (Yield <$> chunks) ++ consumed n t.
Proof.
  induction chunks as [|c chunks IH]; [done|].
  rewrite fmap_cons. simpl. by rewrite IH.
Qed.

(** X3.  In a run that reads its tool to the end, the key is registered
    exactly while the tool's lines are being streamed: a consumer that
    stops within the four header chunks finds [_jobs] as it was, one that
    stops at a streamed line finds the job running, and one that stops at
    any later chunk finds it released. *)
Theorem job_running_window (w : world) (book mp3 : string) (wt hl : bool)
    (caps : capabilities) (proc : Popen) (created : bool) (n : nat)
    (j : jobs) :
  let run := whisper w (whisper_command w book mp3 wt hl caps) in
  let streamed := length (filter (λ l, is_blank l = false) (output run)) in
  let seen := jobs_after (consumed n (trace (whisper_stream w book mp3 wt hl))) j in
  path_exists w (path_join (path_join (BOOKS w) book) mp3) = Ret true →
  get_whisper_capabilities_cached (help_run w) = Ret caps →
  spawn run = Ret proc →
  read_error run = None →
  vtt_exists run = Ret created →
  ((n ≤ 4)%nat → seen = j)
  ∧ ((5 ≤ n ≤ 4 + streamed)%nat →
     seen !! (book, mp3) = Some proc ∧ job_running book mp3 seen = true)
  ∧ ((4 + streamed < n)%nat →
     seen !! (book, mp3) = None ∧ job_running book mp3 seen = false).
Proof.
  intros run streamed seen Hex Hcaps Hsp Herr Hvtt.
  pose proof (whisper_stream_completed w book mp3 wt hl caps proc created
                Hex Hcaps Hsp Herr Hvtt) as Htrace.
  fold run in Htrace. unfold seen. rewrite Htrace. clear Htrace seen.
  set (header := [_; _; _; _]).
  set (lines := (λ l, rstrip l +:+ LF) <$> filter _ (output run)).
  set (closing := _ ++ [_]).
  assert (length lines = streamed) as Hlines
    by (unfold lines; by rewrite length_fmap).
  split_and!.
  - intros Hn. rewrite consumed_yields_le by (simpl; lia).
    apply jobs_after_yields.
  - intros [Hlo Hhi].
    replace n with (length header + S (n - 5))%nat by (simpl; lia).
    rewrite consumed_yields_gt. cbn [consumed].
    rewrite consumed_yields_le by lia.
    rewrite jobs_after_app, jobs_after_yields.
    change (SetJob ?k ?p :: ?t) with ([SetJob k p] ++ t).
    rewrite jobs_after_app, jobs_after_yields.
    assert (jobs_after [SetJob (book, mp3) proc] j !! (book, mp3) = Some proc)
      as Hreg by apply lookup_insert_eq.
    split; [exact Hreg|].
    unfold job_running. rewrite Hreg. by apply bool_decide_eq_true_2.
  - intros Hn.
    replace n with (length header + (length lines + S (n - 5 - streamed)))%nat
      by (simpl; lia).
    rewrite consumed_yields_gt, Nat.add_succ_r. cbn [consumed].
    rewrite <- Nat.add_succ_r, consumed_yields_gt. cbn [consumed].
    assert (jobs_after
              ((Yield <$> header) ++ SetJob (book, mp3) proc
               :: (Yield <$> lines) ++ PopJob (book, mp3)
               :: consumed (S (n - 5 - streamed)) (Yield <$> closing)) j
            !! (book, mp3) = None) as Hgone.
    { rewrite (app_comm_cons _ _ (SetJob _ _)), app_assoc.
      apply jobs_after_pop_last.
      apply consumed_sublist, Forall_fmap, Forall_true. intros c q.
      discriminate. }
    split; [exact Hgone|].
    unfold job_running. rewrite Hgone. apply bool_decide_eq_false_2.
    by intros [x Hx].
Qed.

Lemma job_running_window_witness :
  let seen n :=
    jobs_after
      (consumed n (trace (whisper_stream example_world "b" "01.mp3" true true)))
      ∅ in
  job_running "b" "01.mp3" (seen 6%nat) = true
  ∧ job_running "b" "01.mp3" (seen 7%nat) = false
  ∧ seen 4%nat = ∅.
Proof.
  cbv zeta.
  assert (length (filter (λ l, is_blank l = false)
            (output (whisper example_world
                       (whisper_command example_world "b" "01.mp3" true true
                          example_capabilities)))) = 2%nat) as Hk
    by (vm_compute; reflexivity).
  pose proof (λ n, job_running_window example_world "b" "01.mp3" true true
                example_capabilities 4711%nat true n ∅
                eq_refl eq_refl eq_refl eq_refl eq_refl) as H.
  cbv zeta in H. rewrite Hk in H. split_and!.
  - apply (H 6%nat). lia.
  - apply (H 7%nat). lia.
  - apply (H 4%nat). lia.
Defined.

(** X4.  In a run that reads its tool to the end, the last chunk is the
    status line and it follows the exit code alone: [[DONE mp3 - SUCCESS]]
    for exit code 0, also when the caption file was not produced and the
    chunk before it is the WARNING, and the ERROR line with the code
    otherwise, also when the caption file exists. *)
Theorem status_line_follows_exit_code (w : world) (book mp3 : string)
    (wt hl : bool) (caps : capabilities) (proc : Popen) (created : bool) :
  let run := whisper w (whisper_command w book mp3 wt hl caps) in
  let narration := yields (trace (whisper_stream w book mp3 wt hl)) in
  path_exists w (path_join (path_join (BOOKS w) book) mp3) = Ret true →
  get_whisper_capabilities_cached (help_run w) = Ret caps →
  spawn run = Ret proc →
  read_error run = None →
  vtt_exists run = Ret created →
  last narration =
    Some (if bool_decide (exit_code run = 0)
          then LF +:+ "[DONE " +:+ mp3 +:+ " - SUCCESS]" +:+ LF
          else LF +:+ "ERROR: Whisper process failed with exit code " +:+
               str_of_Z (exit_code run) +:+ LF)
  ∧ (created = false →
     ∃ before,
       narration =
         before
         ++ [LF +:+ "WARNING: Expected VTT file not found at " +:+
               caption_path w book mp3 +:+ LF;
             if bool_decide (exit_code run = 0)
             then LF +:+ "[DONE " +:+ mp3 +:+ " - SUCCESS]" +:+ LF
             else LF +:+ "ERROR: Whisper process failed with exit code " +:+
                  str_of_Z (exit_code run) +:+ LF]).
Proof.
  intros run narration Hex Hcaps Hsp Herr Hvtt.
  pose proof (whisper_stream_completed w book mp3 wt hl caps proc created
                Hex Hcaps Hsp Herr Hvtt) as Htrace.
  fold run in Htrace. unfold narration. rewrite Htrace. clear Htrace.
  rewrite yields_app, yields_fmap.
  change (yields (SetJob ?k ?p :: ?t)) with (yields t).
  rewrite yields_app, yields_fmap.
  change (yields (PopJob ?k :: ?t)) with (yields t).
  rewrite yields_fmap.
  assert ((if bool_decide (exit_code run ≠ 0)
           then LF +:+ "ERROR: Whisper process failed with exit code " +:+
                str_of_Z (exit_code run) +:+ LF
           else LF +:+ "[DONE " +:+ mp3 +:+ " - SUCCESS]" +:+ LF)
          = (if bool_decide (exit_code run = 0)
             then LF +:+ "[DONE " +:+ mp3 +:+ " - SUCCESS]" +:+ LF
             else LF +:+ "ERROR: Whisper process failed with exit code " +:+
                  str_of_Z (exit_code run) +:+ LF)) as ->.
  { repeat case_bool_decide; congruence. }
  split.
  - rewrite !app_assoc. apply last_snoc.
  - intros ->.
    exists (["Starting Whisper transcription for: " +:+ mp3 +:+ LF;
             "Command: " +:+
               join " " (whisper_command w book mp3 wt hl caps) +:+ LF;
             "Word timestamps: " +:+
               enabled_str (wt && word_timestamps_available caps) +:+ LF;
             "Word highlighting: " +:+
               enabled_str (hl && highlight_words_available caps) +:+
               LF +:+ LF]
            ++ ((λ l, rstrip l +:+ LF) <$>
                  filter (λ l, is_blank l = false) (output run))).
    by rewrite <- app_assoc.
Qed.

Lemma status_line_follows_exit_code_witness :
  last (yields (trace (whisper_stream silent_world "b" "01.mp3" true true)))
  = Some (LF +:+ "[DONE 01.mp3 - SUCCESS]" +:+ LF).
Proof.
  refine (proj1 (status_line_follows_exit_code silent_world "b" "01.mp3"
                   true true example_capabilities 7%nat false
                   eq_refl eq_refl eq_refl eq_refl eq_refl)).
Defined.

(** X5.  The status chunk for highlighting is computed from the
    highlighting request and capability alone.  With highlighting
    requested and available and word timestamps not requested, the fourth
    chunk of the narration says highlighting is enabled while the command
    line carries neither option. *)
Theorem highlighting_status_without_flag (w : world) (book mp3 : string)
    (caps : capabilities) :
  path_exists w (path_join (path_join (BOOKS w) book) mp3) = Ret true →
  get_whisper_capabilities_cached (help_run w) = Ret caps →
  highlight_words_available caps = true →
  yields (trace (whisper_stream w book mp3 false true)) !! 3%nat
    = Some ("Word highlighting: enabled" +:+ LF +:+ LF)
  ∧ yields (trace (whisper_stream w book mp3 false true)) !! 2%nat
    = Some ("Word timestamps: disabled" +:+ LF)
  ∧ ("--highlight_words" ∉ whisper_command w book mp3 false true caps)
  ∧ ("--word_timestamps" ∉ whisper_command w book mp3 false true caps).
Proof.
  intros Hex Hcaps Hhl. split_and!.
  - unfold whisper_stream. rewrite Hex, Hcaps. cbn. by rewrite Hhl.
  - unfold whisper_stream. rewrite Hex, Hcaps. reflexivity.
  - intros H. unfold whisper_command in H. simpl in H. option_absent H.
  - intros H. unfold whisper_command in H. simpl in H. option_absent H.
Qed.

Lemma highlighting_status_without_flag_witness :
  yields (trace (whisper_stream example_world "b" "01.mp3" false true))
    !! 3%nat
  = Some ("Word highlighting: enabled" +:+ LF +:+ LF).
Proof.
  refine (proj1 (highlighting_status_without_flag example_world "b" "01.mp3"
                   example_capabilities eq_refl eq_refl eq_refl)).
Defined.

(** ** The sequential batch *)

Lemma batch_cons_raised (w : world) (book mp3 : string) (rest : list string)
    (wt hl : bool) (e : exn) :
  path_exists w (path_join (path_join (BOOKS w) book) mp3) = Raise e →
  batch w book (mp3 :: rest) wt hl =
  Gen [Yield (LF +:+ "=== " +:+ mp3 +:+ " ===" +:+ LF)] (Raise e).
Proof.
  intros Hex.
  change (batch w book (mp3 :: rest) wt hl)
    with ((yield (LF +:+ "=== " +:+ mp3 +:+ " ===" +:+ LF)
             ≫= λ _, whisper_stream w book mp3 wt hl)
            ≫= λ _, batch w book rest wt hl).
  assert (whisper_stream w book mp3 wt hl = Gen [] (Raise e)) as ->.
  { unfold whisper_stream. by rewrite Hex. }
  reflexivity.
Qed.

(** X6.  When looking at each source file returns, the sequential batch
    runs to its end, whatever the tool does, and its narration is, file by
    file in the order of the list, the banner of the file followed by the
    narration of its run. *)
Theorem batch_in_list_order (w : world) (book : string)
    (files : list string) (wt hl : bool) :
  Forall (λ mp3, ∃ present,
            path_exists w (path_join (path_join (BOOKS w) book) mp3)
            = Ret present) files →
  value (batch w book files wt hl) = Ret tt
  ∧ yields (trace (batch w book files wt hl)) =
      mjoin ((λ mp3, (LF +:+ "=== " +:+ mp3 +:+ " ===" +:+ LF)
                     :: yields (trace (whisper_stream w book mp3 wt hl)))
               <$> files).
Proof.
  induction 1 as [|mp3 rest [present Hex] _ [IHv IHy]]; [done|].
  rewrite (batch_cons w book mp3 rest wt hl present Hex).
  cbn [trace value]. split; [exact IHv|].
  rewrite yields_app, IHy. reflexivity.
Qed.

Lemma batch_in_list_order_witness :
  yields (trace (batch example_world "b" ["01.mp3"; "02.mp3"] false false))
  = ((LF +:+ "=== 01.mp3 ===" +:+ LF)
     :: yields (trace (whisper_stream example_world "b" "01.mp3" false false)))
    ++ ((LF +:+ "=== 02.mp3 ===" +:+ LF)
        :: yields (trace (whisper_stream example_world "b" "02.mp3" false false))).
Proof.
  rewrite (proj2 (batch_in_list_order example_world "b" ["01.mp3"; "02.mp3"]
                    false false
                    ltac:(repeat (apply Forall_cons; split;
                                  [by eexists|]); constructor))).
  reflexivity.
Defined.

(** X7.  When looking at a source file raises, the sequential batch stops
    there: the narration ends with the banner of that file, the exception
    leaves the generator, and no later file of the list is touched. *)
Theorem batch_stops_at_unreadable_file (w : world) (book : string)
    (before after : list string) (mp3 : string) (wt hl : bool) (e : exn) :
  Forall (λ m, ∃ present,
            path_exists w (path_join (path_join (BOOKS w) book) m)
            = Ret present) before →
  path_exists w (path_join (path_join (BOOKS w) book) mp3) = Raise e →
  value (batch w book (before ++ mp3 :: after) wt hl) = Raise e
  ∧ yields (trace (batch w book (before ++ mp3 :: after) wt hl)) =
      yields (trace (batch w book before wt hl))
      ++ [LF +:+ "=== " +:+ mp3 +:+ " ===" +:+ LF].
Proof.
  intros Hbefore Hex.
  induction Hbefore as [|m rest [present Hm] _ [IHv IHy]].
  - simpl app. by rewrite (batch_cons_raised w book mp3 after wt hl e Hex).
  - rewrite <- app_comm_cons.
    rewrite (batch_cons w book m (rest ++ mp3 :: after) wt hl present Hm).
    rewrite (batch_cons w book m rest wt hl present Hm).
    cbn [trace value]. split; [exact IHv|].
    rewrite !yields_app, IHy. by rewrite app_assoc.
Qed.

Lemma batch_stops_at_unreadable_file_witness :
  value (batch example_world "b" ["01.mp3"; "03.mp3"; "02.mp3"] true true)
  = Raise (Exn "PermissionError" "[Errno 13] Permission denied")
  ∧ last (yields (trace (batch example_world "b"
                           ["01.mp3"; "03.mp3"; "02.mp3"] true true)))
    = Some (LF +:+ "=== 03.mp3 ===" +:+ LF).
Proof.
  pose proof (batch_stops_at_unreadable_file example_world "b" ["01.mp3"]
                ["02.mp3"] "03.mp3" true true
                (Exn "PermissionError" "[Errno 13] Permission denied")
                ltac:(repeat (apply Forall_cons; split;
                              [by eexists|]); constructor)
                eq_refl) as [Hv Hy].
  split; [exact Hv|].
  exact (eq_trans (f_equal last Hy) (last_snoc _ _)).
Defined.

Lemma jobs_after_untouched (key : JobKey) (t : list event) (j : jobs) :
  Forall (λ ev, (∀ p, ev ≠ SetJob key p) ∧ ev ≠ PopJob key) t →
  jobs_after t j !! key = j !! key.
Proof.
  intros Ht. revert j. induction Ht as [|ev t [Hset Hpop] _ IH]; intros j; [done|].
  unfold jobs_after in *. simpl. rewrite IH.
  destruct ev as [c|k p|k]; simpl; [done| |].
  - unfold jobs_setitem. rewrite lookup_insert_ne; [done|].
    intros ->. by apply (Hset p).
  - unfold jobs_pop. rewrite lookup_delete_ne; [done|]. by intros ->.
Qed.

(** The batch writes to the keys of its own files only. *)
Lemma batch_events (w : world) (book : string) (files : list string)
    (wt hl : bool) (mp3 : string) :
  Forall (λ m, ∃ present,
            path_exists w (path_join (path_join (BOOKS w) book) m)
            = Ret present) files →
  mp3 ∉ files →
  Forall (λ ev, (∀ p, ev ≠ SetJob (book, mp3) p) ∧ ev ≠ PopJob (book, mp3))
    (trace (batch w book files wt hl)).
Proof.
  induction 1 as [|m rest [present Hm] _ IH]; intros Hnot; [constructor|].
  apply not_elem_of_cons in Hnot as [Hne Hnot].
  rewrite (batch_cons w book m rest wt hl present Hm). cbn [trace].
  apply Forall_app_2; [|by apply IH].
  apply Forall_cons; split; [by split|].
  eapply Forall_impl; [apply whisper_stream_events|].
  intros ev [(c & ->)|[(p & ->)| ->]]; split; try done; congruence.
Qed.

(** X8.  After a sequential batch whose files could all be looked at, no
    file of the list that exists is left registered, whatever [_jobs] held
    before; and a key of a file that is not in the list holds what it
    held. *)
Theorem batch_releases_every_file (w : world) (book : string)
    (files : list string) (wt hl : bool) (mp3 : string) (j : jobs) :
  Forall (λ m, ∃ present,
            path_exists w (path_join (path_join (BOOKS w) book) m)
            = Ret present) files →
  (mp3 ∈ files →
   path_exists w (path_join (path_join (BOOKS w) book) mp3) = Ret true →
   jobs_after (trace (batch w book files wt hl)) j !! (book, mp3) = None)
  ∧ (mp3 ∉ files →
     jobs_after (trace (batch w book files wt hl)) j !! (book, mp3)
     = j !! (book, mp3)).
Proof.
  intros Hall. split.
  - intros Hin Hex. revert j.
    induction Hall as [|m rest [present Hm] Hall IH]; intros j.
    { by apply elem_of_nil in Hin. }
    rewrite (batch_cons w book m rest wt hl present Hm). cbn [trace].
    rewrite jobs_after_app.
    destruct (decide (mp3 ∈ rest)) as [Hrest|Hrest]; [by apply IH|].
    apply elem_of_cons in Hin as [->|Hin]; [|done].
    rewrite (jobs_after_untouched (book, m))
      by (by apply batch_events).
    change (jobs_after (Yield ?c :: ?t) j) with (jobs_after t j).
    by apply whisper_stream_clears_key.
  - intros Hnot. apply jobs_after_untouched. by apply batch_events.
Qed.

Lemma batch_releases_every_file_witness :
  jobs_after (trace (batch example_world "b" ["01.mp3"; "02.mp3"] true true))
    {[("b", "01.mp3") := 17%nat; ("b", "09.mp3") := 18%nat]}
    !! ("b", "01.mp3") = None
  ∧ jobs_after (trace (batch example_world "b" ["01.mp3"; "02.mp3"] true true))
      {[("b", "01.mp3") := 17%nat; ("b", "09.mp3") := 18%nat]}
      !! ("b", "09.mp3") = Some 18%nat.
Proof.
  assert (Forall (λ m, ∃ present,
            path_exists example_world
              (path_join (path_join (BOOKS example_world) "b") m)
            = Ret present) ["01.mp3"; "02.mp3"]) as Hall
    by (repeat (apply Forall_cons; split; [by eexists|]); constructor).
  split.
  - apply (batch_releases_every_file example_world "b" ["01.mp3"; "02.mp3"]
             true true "01.mp3" _ Hall); [apply list_elem_of_here|reflexivity].
  - rewrite (proj2 (batch_releases_every_file example_world "b"
                      ["01.mp3"; "02.mp3"] true true "09.mp3" _ Hall)).
    + by rewrite lookup_insert_ne, lookup_singleton_eq.
    + apply (bool_decide_unpack _). vm_compute. exact I.
Defined.

(** ** The routes *)

Lemma uncaptioned_spec (w : world) (book : string) (mp3s pending : list string) :
  uncaptioned w book mp3s = Ret pending →
  ∃ tracks,
    captioned_tracks w book mp3s = Ret tracks
    ∧ tracks ++ pending ≡ₚ mp3s
    ∧ tracks `sublist_of` mp3s
    ∧ pending `sublist_of` mp3s
    ∧ Forall (λ m, path_exists w (caption_path w book m) = Ret true) tracks
    ∧ Forall (λ m, path_exists w (caption_path w book m) = Ret false) pending.
Proof.
  revert pending. induction mp3s as [|m rest IH]; intros pending Hp.
  - injection Hp as <-. exists []. split_and!; by constructor.
  - simpl in Hp.
    destruct (path_exists w (caption_path w book m)) as [c|e] eqn:Hc;
      [|discriminate Hp].
    cbn in Hp.
    destruct (uncaptioned w book rest) as [more|e] eqn:Hmore;
      [|discriminate Hp].
    cbn in Hp. injection Hp as <-.
    destruct (IH more eq_refl) as (tracks & Ht & Hperm & Hst & Hsp & Hft & Hfp).
    simpl. rewrite Hc. cbn. rewrite Ht. cbn. destruct c.
    + exists (m :: tracks). split_and!; try done.
      * simpl. by constructor.
      * by constructor.
      * by constructor.
      * by constructor.
    + exists tracks. split_and!; try done.
      * rewrite <- Permutation_middle. by constructor.
      * by constructor.
      * by constructor.
      * by constructor.
Qed.

(** X9.  The mp3 files of a book split into the tracks the player offers
    and the files [/gen_all] would process: together they are the listing,
    each in listing order, the tracks have a caption file and the others
    have none.  The player answers 404 exactly when there is no captioned
    track, [/gen_all] answers that all files have transcripts exactly when
    nothing is pending, and both answers together mean the book has no
    mp3 file. *)
Theorem tracks_and_pending_partition (w : world) (d : gen_all_request)
    (file : option string) (pending : list string) :
  uncaptioned w (req_book d) (list_mp3s w (req_book d)) = Ret pending →
  ∃ tracks,
    captioned_tracks w (req_book d) (list_mp3s w (req_book d)) = Ret tracks
    ∧ tracks ++ pending ≡ₚ list_mp3s w (req_book d)
    ∧ tracks `sublist_of` list_mp3s w (req_book d)
    ∧ pending `sublist_of` list_mp3s w (req_book d)
    ∧ Forall (λ m, path_exists w (caption_path w (req_book d) m) = Ret true)
        tracks
    ∧ Forall (λ m, path_exists w (caption_path w (req_book d) m) = Ret false)
        pending
    ∧ (player_data w (req_book d) file = Ret NoCaptionedTracks ↔ tracks = [])
    ∧ (stream_book_captions_route w d
       = Ret (Text ("All files already have transcripts" +:+ LF))
       ↔ pending = [])
    ∧ (tracks = [] → pending = [] → list_mp3s w (req_book d) = []).
Proof.
  intros Hp.
  destruct (uncaptioned_spec w _ _ _ Hp)
    as (tracks & Ht & Hperm & Hst & Hsp & Hft & Hfp).
  exists tracks. split_and!; try done.
  - unfold player_data. rewrite Ht. cbn.
    destruct tracks; split; intros H; done.
  - unfold stream_book_captions_route. rewrite Hp.
    cbn -[whisper_stream_parallel batch].
    case_bool_decide; [done|].
    split; [|done]. destruct (_ && _); discriminate.
  - intros -> ->. symmetry. by apply Permutation_nil_l.
Qed.

Lemma tracks_and_pending_partition_witness :
  ∃ tracks,
    captioned_tracks silent_world "b" (list_mp3s silent_world "b") = Ret tracks
    ∧ tracks ++ ["01.mp3"] ≡ₚ ["01.mp3"]
    ∧ player_data silent_world "b" None = Ret NoCaptionedTracks.
Proof.
  destruct (tracks_and_pending_partition silent_world
              {| req_book := "b"; req_parallel := None;
                 req_max_workers := None; req_word_timestamps := None;
                 req_highlighting := None |} None ["01.mp3"] eq_refl)
    as (tracks & Ht & Hperm & _ & _ & _ & _ & Hplayer & _).
  exists tracks. split_and!; [exact Ht | exact Hperm |].
  apply Hplayer. simpl in Ht. injection Ht as <-. reflexivity.
Defined.

(** X10.  [/gen_all] passes [max_workers] of the request to the pool
    unchecked.  In the parallel branch a value of 0 or less gives a stream
    that consists of the start line and then ends with the pool's
    ValueError: no file is transcribed and no block is emitted. *)
Theorem parallel_rejects_nonpositive_workers (w : world) (d : gen_all_request)
    (files : list string) :
  uncaptioned w (req_book d) (list_mp3s w (req_book d)) = Ret files →
  default false (req_parallel d) = true →
  (1 < length files)%nat →
  default 2 (req_max_workers d) ≤ 0 →
  ∃ g,
    stream_book_captions_route w d = Ret (Stream g)
    ∧ trace g =
        [Yield ("Starting parallel transcription of " +:+
                str_of_nat (length files) +:+ " files with " +:+
                str_of_Z (default 2 (req_max_workers d)) +:+
                " workers" +:+ LF +:+ LF)]
    ∧ value g = Raise (Exn "ValueError" "max_workers must be greater than 0").
Proof.
  intros Hfiles Hpar Hlen Hworkers.
  exists (whisper_stream_parallel w (req_book d) files
            (default 2 (req_max_workers d))).
  split_and!.
  - unfold stream_book_captions_route. rewrite Hfiles, Hpar.
    cbn -[whisper_stream_parallel batch].
    rewrite bool_decide_eq_false_2 by (intros ->; simpl in Hlen; lia).
    by rewrite (bool_decide_eq_true_2 _ Hlen).
  - unfold whisper_stream_parallel, ThreadPoolExecutor.
    by rewrite (proj2 (Z.leb_le _ _) Hworkers).
  - unfold whisper_stream_parallel, ThreadPoolExecutor.
    by rewrite (proj2 (Z.leb_le _ _) Hworkers).
Qed.

Lemma parallel_rejects_nonpositive_workers_witness :
  ∃ g,
    stream_book_captions_route example_world
      {| req_book := "b"; req_parallel := Some true;
         req_max_workers := Some 0; req_word_timestamps := None;
         req_highlighting := None |} = Ret (Stream g)
    ∧ yields (trace g) =
        ["Starting parallel transcription of 3 files with 0 workers"
           +:+ LF +:+ LF].
Proof.
  destruct (parallel_rejects_nonpositive_workers example_world
              {| req_book := "b"; req_parallel := Some true;
                 req_max_workers := Some 0; req_word_timestamps := None;
                 req_highlighting := None |}
              ["01.mp3"; "02.mp3"; "03.mp3"] eq_refl eq_refl
              ltac:(simpl; lia) ltac:(simpl; lia))
    as (g & Hg & Ht & _).
  exists g. split; [exact Hg|]. rewrite Ht. reflexivity.
Defined.

(** X11.  For a book with exactly one file without a caption, [/gen_all]
    streams that file's banner followed by what [/gen_one] streams for the
    same file and flags, and ends as it ends, whether or not the request
    asks for the parallel path: the parallel path needs more than one
    file. *)
Theorem gen_all_single_file_is_gen_one (w : world) (d : gen_all_request)
    (mp3 : string) :
  uncaptioned w (req_book d) (list_mp3s w (req_book d)) = Ret [mp3] →
  ∃ g1 g,
    stream_single_caption_route w
      {| one_book := req_book d; one_mp3 := mp3;
         one_word_timestamps := req_word_timestamps d;
         one_highlighting := req_highlighting d |} = Ret (Stream g1)
    ∧ stream_book_captions_route w d = Ret (Stream g)
    ∧ trace g =
        Yield (LF +:+ "=== " +:+ mp3 +:+ " ===" +:+ LF) :: trace g1
    ∧ value g = value g1.
Proof.
  intros Hp.
  destruct (uncaptioned_spec w _ _ _ Hp) as (_ & _ & _ & _ & _ & _ & Hfalse).
  apply Forall_cons in Hfalse as [Hfalse _].
  exists (whisper_stream w (req_book d) mp3
            (default true (req_word_timestamps d))
            (default true (req_highlighting d))),
         (batch w (req_book d) [mp3]
            (default true (req_word_timestamps d))
            (default true (req_highlighting d))).
  split_and!.
  - unfold stream_single_caption_route. simpl. rewrite Hfalse. reflexivity.
  - unfold stream_book_captions_route. rewrite Hp.
    cbn -[whisper_stream_parallel batch]. by rewrite andb_false_r.
  - unfold batch. simpl for_each.
    destruct (whisper_stream w (req_book d) mp3 _ _) as [t [[]|e]]; cbn;
      by rewrite ?app_nil_r.
  - unfold batch. simpl for_each.
    by destruct (whisper_stream w (req_book d) mp3 _ _) as [t [[]|e]].
Qed.

Lemma gen_all_single_file_is_gen_one_witness :
  ∃ g1 g,
    stream_single_caption_route silent_world
      {| one_book := "b"; one_mp3 := "01.mp3";
         one_word_timestamps := Some false; one_highlighting := None |}
    = Ret (Stream g1)
    ∧ stream_book_captions_route silent_world
        {| req_book := "b"; req_parallel := Some true;
           req_max_workers := None; req_word_timestamps := Some false;
           req_highlighting := None |} = Ret (Stream g)
    ∧ trace g = Yield (LF +:+ "=== 01.mp3 ===" +:+ LF) :: trace g1.
Proof.
  destruct (gen_all_single_file_is_gen_one silent_world
              {| req_book := "b"; req_parallel := Some true;
                 req_max_workers := None; req_word_timestamps := Some false;
                 req_highlighting := None |} "01.mp3" eq_refl)
    as (g1 & g & H1 & H2 & H3 & _).
  by exists g1, g.
Defined.

(** ** The benchmark *)

(** X12.  The benchmark reports success exactly when the tool returned
    with exit code 0, and exactly then its [error] is [None]: a non-zero
    exit carries the tool's stderr, a timeout the fixed message with a
    processing time of 120, any other exception its text with a
    processing time of 0. *)
Theorem benchmark_success_and_error (caps : capabilities) (b : bench)
    (temp_dir test_audio_path model_to_test : string) (st : settings) :
  let cmd := speed_test_command caps temp_dir test_audio_path
               model_to_test st in
  let r := test_whisper_speed caps b temp_dir test_audio_path
             model_to_test st in
  (success r = true ↔ error r = None)
  ∧ (success r = true
     ↔ ∃ result, bench_run b cmd = Ret result ∧ returncode result = 0)
  ∧ (∀ result, bench_run b cmd = Ret result → returncode result ≠ 0 →
       error r = Some (stderr result))
  ∧ (∀ e, bench_run b cmd = Raise e → exn_class e = "TimeoutExpired" →
       error r = Some "Transcription speed test timed out"
       ∧ processing_time r = 120%float ∧ speed_ratio r = 0%float)
  ∧ (∀ e, bench_run b cmd = Raise e → exn_class e ≠ "TimeoutExpired" →
       error r = Some (exn_str e)
       ∧ processing_time r = 0%float ∧ speed_ratio r = 0%float).
Proof.
  cbv zeta. unfold test_whisper_speed.
  destruct (bench_run b _) as [result|e].
  - simpl. split_and!.
    + repeat case_bool_decide; split; congruence.
    + split.
      * intros Hs. exists result. split; [done|].
        by apply bool_decide_eq_true in Hs.
      * intros (r' & [= <-] & Hz). by apply bool_decide_eq_true_2.
    + intros r' [= <-] Hne. by rewrite bool_decide_eq_true_2.
    + intros e' [=].
    + intros e' [=].
  - split_and!.
    + case_bool_decide; simpl; split; congruence.
    + case_bool_decide; simpl; (split; [done|]); by intros (r' & [=] & _).
    + intros r' [=].
    + intros e' [= <-] Hc. by rewrite (bool_decide_eq_true_2 _ Hc).
    + intros e' [= <-] Hc. by rewrite (bool_decide_eq_false_2 _ Hc).
Qed.

Lemma benchmark_success_and_error_witness :
  let r := test_whisper_speed example_capabilities timeout_bench "/tmp/t"
             "/tmp/c.mp3" MODEL
             {| word_timestamps := None; highlighting := None |} in
  error r = Some "Transcription speed test timed out"
  ∧ processing_time r = 120%float ∧ speed_ratio r = 0%float.
Proof.
  cbv zeta.
  refine (proj1 (proj2 (proj2 (proj2
            (benchmark_success_and_error example_capabilities timeout_bench
               "/tmp/t" "/tmp/c.mp3" MODEL
               {| word_timestamps := None; highlighting := None |}))))
            (Exn "TimeoutExpired" "timed out after 120 seconds")
            eq_refl eq_refl).
Defined.

(** X13.  A speed ratio above 0 is reported only for a tool invocation
    that returned, with a probed duration above 0 and a clock difference
    above 0, and it is then their quotient; a timeout, an exception, a
    zero or negative duration or elapsed time never give a positive
    ratio. *)
Theorem positive_ratio_only_from_measurement (caps : capabilities) (b : bench)
    (temp_dir test_audio_path model_to_test : string) (st : settings) :
  let r := test_whisper_speed caps b temp_dir test_audio_path
             model_to_test st in
  (0 <? speed_ratio r)%float = true →
  (∃ result,
     bench_run b (speed_test_command caps temp_dir test_audio_path
                    model_to_test st) = Ret result)
  ∧ (0 <? probed_duration b)%float = true
  ∧ (0 <? end_time b - start_time b)%float = true
  ∧ speed_ratio r = (probed_duration b / (end_time b - start_time b))%float.
Proof.
  cbv zeta. unfold test_whisper_speed.
  destruct (bench_run b _) as [result|e]; simpl.
  - unfold compute_speed_ratio.
    destruct (0 <? probed_duration b)%float; simpl; [|discriminate].
    destruct (0 <? end_time b - start_time b)%float; simpl; [|discriminate].
    intros _. split_and!; eauto.
  - case_bool_decide; simpl; discriminate.
Qed.

Lemma positive_ratio_only_from_measurement_witness :
  (0 <? probed_duration example_bench)%float = true
  ∧ speed_ratio (test_whisper_speed example_capabilities example_bench
                   "/tmp/t" "/tmp/c.mp3" MODEL
                   {| word_timestamps := None; highlighting := None |})
    = (probed_duration example_bench
       / (end_time example_bench - start_time example_bench))%float.
Proof.
  pose proof (positive_ratio_only_from_measurement example_capabilities
                example_bench "/tmp/t" "/tmp/c.mp3" MODEL
                {| word_timestamps := None; highlighting := None |} eq_refl)
    as (_ & H1 & _ & H2).
  by split.
Defined.

(** ** The speed-ratio file *)

Lemma dict_set_all_app (puts1 puts2 : list (string * SpeedRecord))
    (d : list (string * SpeedRecord)) :
  foldl (λ d p, dict_set p.1 p.2 d) d (puts1 ++ puts2)
  = foldl (λ d p, dict_set p.1 p.2 d)
      (foldl (λ d p, dict_set p.1 p.2 d) d puts1) puts2.
Proof. apply foldl_app. Qed.

(** X14.  When a sequence of saves whose writes succeed has returned, a
    lookup returns the record of the last save under that key: saves under
    it before that one and saves under other keys after it do not matter,
    nor does what the file held at the start.  Such a sequence returns when
    the file is absent, cannot be read, is not JSON or holds a JSON object.
    On a file whose reading raises what the load does not catch (bytes
    that are not UTF-8), or whose JSON text is an array, a string, a
    number, [true], [false] or [null], every save raises before anything
    is written, whatever the write would have done. *)
Theorem last_save_wins_in_sequence (f f' : ratios_file) (k : string)
    (r : SpeedRecord) (earlier later : list (string * SpeedRecord))
    (d : list (string * SpeedRecord)) :
  (k ∉ later.*1 →
   put_all (earlier ++ (k, r) :: later) f = Ret f' →
   find_speed_ratio f' k = Ret (Found r))
  ∧ (f = Missing ∨ f = Unreadable ∨ f = NotJson ∨ f = Stored d →
     ∃ f'', put_all (earlier ++ (k, r) :: later) f = Ret f'')
  ∧ (∀ wr e elements text type_name,
       save_speed_ratio_data wr k r (Undecodable e) = Raise e
       ∧ save_speed_ratio_data wr k r (JsonArray elements)
         = Raise (Exn "TypeError"
                    "list indices must be integers or slices, not str")
       ∧ save_speed_ratio_data wr k r (JsonString text)
         = Raise (Exn "TypeError"
                    "'str' object does not support item assignment")
       ∧ save_speed_ratio_data wr k r (JsonScalar type_name)
         = Raise (Exn "TypeError"
                    ("'" +:+ type_name
                     +:+ "' object does not support item assignment"))).
Proof.
  split_and!.
  - intros Hk Hput.
    destruct (put_all_returned _ _ _ Hput) as [d0 Hd0];
      [by destruct earlier|].
    destruct (put_all_loads (earlier ++ (k, r) :: later) f d0 Hd0)
      as (f2 & Hput2 & Hload).
    rewrite Hput in Hput2. injection Hput2 as <-.
    rewrite (find_stored _ _ _ Hload).
    rewrite dict_set_all_app. simpl.
    rewrite dict_set_all_other by done.
    by rewrite dict_get_set_eq.
  - intros Hf.
    assert (∃ d1, load_saved_speed_ratios f = Ret (Mapping d1)) as [d1 Hd1].
    { destruct Hf as [-> | [-> | [-> | ->]]]; by eexists. }
    destruct (put_all_loads (earlier ++ (k, r) :: later) f d1 Hd1)
      as (f2 & Hput2 & _).
    by exists f2.
  - intros wr e elements text type_name. by split_and!.
Qed.

Lemma last_save_wins_in_sequence_witness :
  let saved := Stored [("medium:True:True", example_record 3);
                       ("medium:False:True", example_record 4)] in
  put_all [("medium:True:True", example_record 2);
           ("medium:True:True", example_record 3);
           ("medium:False:True", example_record 4)] NotJson = Ret saved
  ∧ find_speed_ratio saved "medium:True:True" = Ret (Found (example_record 3)).
Proof.
  cbv zeta. split; [reflexivity|].
  apply (proj1 (last_save_wins_in_sequence NotJson _ "medium:True:True"
                  (example_record 3) [("medium:True:True", example_record 2)]
                  [("medium:False:True", example_record 4)] [])).
  - apply (bool_decide_unpack _). vm_compute. exact I.
  - reflexivity.
Defined.

Lemma speed_test_key_inv (m1 m2 : string) (s1 s2 : settings) :
  get_speed_test_key m1 s1 = get_speed_test_key m2 s2 →
  m1 = m2
  ∧ default true (word_timestamps s1) = default true (word_timestamps s2)
  ∧ default true (highlighting s1) = default true (highlighting s2).
Proof.
  unfold get_speed_test_key. intros H.
  rewrite <- !(append_assoc _ ":" (str_of_bool _ +:+ _)) in H.
  rewrite <- !(append_assoc (_ +:+ ":") (str_of_bool _)) in H.
  apply flag_suffix_inj in H as [H Hh].
  rewrite !append_assoc in H.
  apply flag_suffix_inj in H as [Hm Hw]. done.
Qed.

Lemma dict_get_app_None {V} (key : string) (d1 d2 : list (string * V)) :
  dict_get key d1 = None → dict_get key (d1 ++ d2) = dict_get key d2.
Proof.
  induction d1 as [|[k v] d1 IH]; simpl; [done|].
  by case_bool_decide.
Qed.

(** X15.  Benchmarks of two configurations that differ in the model name
    or in a flag are kept side by side.  Over a file that loads as a
    mapping, whichever of the two is saved first, both records are found
    afterwards and every key is answered alike.  The file itself keeps the
    order of the saves: when neither key was in the mapping, the two
    entries stand at its end in the order in which they were saved, so the
    two orders leave different files. *)
Theorem different_configurations_coexist (f : ratios_file) (m1 m2 : string)
    (s1 s2 : settings) (r1 r2 : SpeedRecord)
    (d : list (string * SpeedRecord)) :
  m1 ≠ m2
  ∨ default true (word_timestamps s1) ≠ default true (word_timestamps s2)
  ∨ default true (highlighting s1) ≠ default true (highlighting s2) →
  load_saved_speed_ratios f = Ret (Mapping d) →
  let k1 := get_speed_test_key m1 s1 in
  let k2 := get_speed_test_key m2 s2 in
  let both := Stored (dict_set k2 r2 (dict_set k1 r1 d)) in
  let swapped := Stored (dict_set k1 r1 (dict_set k2 r2 d)) in
  (save_speed_ratio_data Written k1 r1 f
   ≫= save_speed_ratio_data Written k2 r2) = Ret both
  ∧ (save_speed_ratio_data Written k2 r2 f
     ≫= save_speed_ratio_data Written k1 r1) = Ret swapped
  ∧ find_speed_ratio both k1 = Ret (Found r1)
  ∧ find_speed_ratio both k2 = Ret (Found r2)
  ∧ (∀ key, find_speed_ratio both key = find_speed_ratio swapped key)
  ∧ (dict_get k1 d = None → dict_get k2 d = None →
     both = Stored (d ++ [(k1, r1); (k2, r2)])
     ∧ swapped = Stored (d ++ [(k2, r2); (k1, r1)])
     ∧ both ≠ swapped).
Proof.
  intros Hdiff Hd. cbv zeta.
  assert (get_speed_test_key m1 s1 ≠ get_speed_test_key m2 s2) as Hne.
  { intros H. apply speed_test_key_inv in H as (? & ? & ?).
    destruct Hdiff as [?|[?|?]]; done. }
  set (k1 := get_speed_test_key m1 s1) in *.
  set (k2 := get_speed_test_key m2 s2) in *.
  split_and!.
  - rewrite (save_mapping _ _ _ _ _ Hd). reflexivity.
  - rewrite (save_mapping _ _ _ _ _ Hd). reflexivity.
  - rewrite (find_stored (dict_set k2 r2 (dict_set k1 r1 d))) by reflexivity.
    rewrite dict_get_set_ne by done. by rewrite dict_get_set_eq.
  - rewrite (find_stored (dict_set k2 r2 (dict_set k1 r1 d))) by reflexivity.
    by rewrite dict_get_set_eq.
  - intros key.
    rewrite (find_stored (dict_set k2 r2 (dict_set k1 r1 d))) by reflexivity.
    rewrite (find_stored (dict_set k1 r1 (dict_set k2 r2 d))) by reflexivity.
    do 2 f_equal.
    destruct (decide (key = k2)) as [-> | Hk2].
    + rewrite dict_get_set_eq, dict_get_set_ne by done.
      by rewrite dict_get_set_eq.
    + rewrite (dict_get_set_ne k2) by done.
      destruct (decide (key = k1)) as [-> | Hk1].
      * by rewrite !dict_get_set_eq.
      * by rewrite !dict_get_set_ne.
  - intros H1 H2.
    assert (dict_set k2 r2 (dict_set k1 r1 d) = d ++ [(k1, r1); (k2, r2)])
      as ->.
    { rewrite (dict_set_new k1) by done.
      rewrite dict_set_new.
      - by rewrite <- app_assoc.
      - rewrite dict_get_app_None by done. simpl.
        by rewrite bool_decide_eq_false_2. }
    assert (dict_set k1 r1 (dict_set k2 r2 d) = d ++ [(k2, r2); (k1, r1)])
      as ->.
    { rewrite (dict_set_new k2) by done.
      rewrite dict_set_new.
      - by rewrite <- app_assoc.
      - rewrite dict_get_app_None by done. simpl.
        by rewrite bool_decide_eq_false_2. }
    split_and!; [done..|].
    intros [= H]. apply app_inv_head in H. injection H as H _. done.
Qed.

Lemma different_configurations_coexist_witness :
  let both :=
    Stored [("medium:True:True", example_record 2);
            ("medium:False:True", example_record 3)] in
  find_speed_ratio both "medium:True:True" = Ret (Found (example_record 2))
  ∧ find_speed_ratio both "medium:False:True" = Ret (Found (example_record 3))
  ∧ both ≠ Stored [("medium:False:True", example_record 3);
                   ("medium:True:True", example_record 2)].
Proof.
  pose proof (different_configurations_coexist Missing "medium" "medium"
                {| word_timestamps := None; highlighting := None |}
                {| word_timestamps := Some false; highlighting := None |}
                (example_record 2) (example_record 3) []
                ltac:(right; left; discriminate) eq_refl)
    as (_ & _ & H1 & H2 & _ & H3).
  destruct (H3 eq_refl eq_refl) as (_ & _ & H4).
  by split_and!.
Defined.

(** X16.  A record saved under the key of a configuration is what
    [GET /api/speed-ratio] answers for a query that names the same model
    (or none, when the model is the default one) and spells the same
    flags: a parameter is true when it is absent or reads [true] in any
    letter case and false for every other text, a setting is true when it
    is absent.  This holds whenever the save has returned, which it does
    on a file that is absent, cannot be read, is not JSON or holds a JSON
    object. *)
Theorem saved_ratio_is_served (f : ratios_file) (r : SpeedRecord)
    (model : string) (st : settings) (args : speed_ratio_query)
    (d : list (string * SpeedRecord)) :
  default MODEL (q_model args) = model →
  bool_decide (lower (default "true" (q_word_timestamps args)) = "true")
    = default true (word_timestamps st) →
  bool_decide (lower (default "true" (q_highlight_words args)) = "true")
    = default true (highlighting st) →
  (∀ f', save_speed_ratio_data Written (get_speed_test_key model st) r f
         = Ret f' →
         get_speed_ratio_route f' args = Found r)
  ∧ (f = Missing ∨ f = Unreadable ∨ f = NotJson ∨ f = Stored d →
     ∃ f', save_speed_ratio_data Written (get_speed_test_key model st) r f
           = Ret f').
Proof.
  intros Hm Hw Hh. split.
  - intros f' Hsave. unfold get_speed_ratio_route. rewrite Hm, Hw, Hh.
    destruct (save_returned _ _ _ _ _ Hsave) as [d' Hd].
    rewrite (save_mapping _ _ _ _ _ Hd) in Hsave. injection Hsave as <-.
    assert (get_speed_test_key model
              {| word_timestamps := Some (default true (word_timestamps st));
                 highlighting := Some (default true (highlighting st)) |}
            = get_speed_test_key model st) as -> by reflexivity.
    rewrite (find_stored (dict_set (get_speed_test_key model st) r d'))
      by reflexivity.
    by rewrite dict_get_set_eq.
  - intros Hf.
    assert (∃ d1, load_saved_speed_ratios f = Ret (Mapping d1)) as [d1 Hd1].
    { destruct Hf as [-> | [-> | [-> | ->]]]; by eexists. }
    rewrite (save_mapping _ _ _ _ _ Hd1). by eexists.
Qed.

Lemma saved_ratio_is_served_witness :
  let saved :=
    Stored [(get_speed_test_key MODEL
               {| word_timestamps := None; highlighting := Some false |},
             example_record 2)] in
  save_speed_ratio_data Written
    (get_speed_test_key MODEL
       {| word_timestamps := None; highlighting := Some false |})
    (example_record 2) Missing = Ret saved
  ∧ get_speed_ratio_route saved
      {| q_model := None; q_word_timestamps := Some "TRUE";
         q_highlight_words := Some "1" |}
    = Found (example_record 2).
Proof.
  cbv zeta. split; [reflexivity|].
  apply (proj1 (saved_ratio_is_served Missing (example_record 2) MODEL
                  {| word_timestamps := None; highlighting := Some false |}
                  {| q_model := None; q_word_timestamps := Some "TRUE";
                     q_highlight_words := Some "1" |} []
                  eq_refl eq_refl eq_refl)).
  reflexivity.
Defined.

(** ** The test clip and the benchmark route *)

(** X17.  [create_test_audio_clip] returns a path exactly when it leaves
    the temporary file in place: the path is then the temporary file's,
    [ffmpeg] has returned with exit code 0 and the file is not empty.  On
    every other path (non-zero exit, empty or missing output, timeout,
    [ffmpeg] not found, any other exception) the answer is [None] and the
    temporary file is gone. *)
Theorem clip_returned_iff_kept (ffmpeg : list string → ffmpeg_run)
    (temp_path source_audio : string) (duration_seconds : Z) :
  let out := create_test_audio_clip ffmpeg temp_path source_audio
               duration_seconds in
  (out.1 = None ↔ out.2 = None)
  ∧ (∀ clip, out.1 = Some clip →
       clip = temp_path
       ∧ ∃ cmd process size,
           ff_result (ffmpeg cmd) = Ret process
           ∧ returncode process = 0
           ∧ ff_leaves (ffmpeg cmd) = Some size
           ∧ out.2 = Some size
           ∧ (0 < size)%N).
Proof.
  cbv zeta. unfold create_test_audio_clip.
  set (cmd := [_; _; _; _; _; _; _; _; _; _; _; _]).
  destruct (ff_result (ffmpeg cmd)) as [process|e] eqn:Hres.
  - case_bool_decide as Hrc.
    + simpl. split; [by destruct (ff_leaves _)|]. intros clip [=].
    + destruct (ff_leaves (ffmpeg cmd)) as [size|] eqn:Hleft.
      * destruct (0 <? size)%N eqn:Hsize; simpl.
        -- split; [split; discriminate|]. intros clip [= <-].
           split; [done|]. exists cmd, process, size.
           split_and!; try done. by apply N.ltb_lt.
        -- split; [done|]. intros clip [=].
      * simpl. split; [done|]. intros clip [=].
  - repeat case_bool_decide; simpl;
      (split; [by destruct (ff_leaves _)|]); intros clip [=].
Qed.

Lemma clip_returned_iff_kept_witness :
  let ffmpeg := λ _ : list string,
    {| ff_result := Raise (Exn "TimeoutExpired" "timed out after 30 seconds");
       ff_leaves := Some 4096%N |} in
  (create_test_audio_clip ffmpeg "/tmp/tmpa.mp3" "/srv/books/b/01.mp3" 15).2
  = None.
Proof.
  cbv zeta.
  apply (proj1 (clip_returned_iff_kept _ "/tmp/tmpa.mp3"
                  "/srv/books/b/01.mp3" 15)).
  reflexivity.
Defined.

Lemma clip_none_gone (ffmpeg : list string → ffmpeg_run)
    (temp_path source_audio : string) (duration_seconds : Z) :
  let out := create_test_audio_clip ffmpeg temp_path source_audio
               duration_seconds in
  out.1 = None → out.2 = None.
Proof.
  cbv zeta. unfold create_test_audio_clip.
  set (cmd := [_; _; _; _; _; _; _; _; _; _; _; _]).
  destruct (ff_result (ffmpeg cmd)) as [process|e].
  - case_bool_decide as Hrc; [by destruct (ff_leaves _)|].
    destruct (ff_leaves (ffmpeg cmd)) as [size|]; [|done].
    by destruct (0 <? size)%N.
  - repeat case_bool_decide; by destruct (ff_leaves _).
Qed.

(** X18.  The benchmark route leaves no test clip behind, whatever
    happens.  It touches the speed-ratio file only when it answers
    success: the ratio of that answer is above 0 and the route has saved,
    under the key of the default model and the tested settings, a record
    holding that ratio, which a lookup of the key returns when the write
    went through.  When it answers failure, or answers status 500 because
    the save has raised, the file is what it was. *)
Theorem speed_test_saves_only_success (caps : capabilities)
    (ffmpeg : list string → ffmpeg_run) (b : bench)
    (temp_path temp_dir source_audio_path : string) (st : settings)
    (file_info : list (string * option float)) (now : string)
    (wr : write_result) (f : ratios_file) :
  let out := whisper_speed_test_run caps ffmpeg b temp_path temp_dir
               source_audio_path st file_info now wr f in
  out.2 = None
  ∧ match out.1.1 with
    | SpeedTestOk ratio model tested estimates =>
        (0 <? ratio)%float = true
        ∧ model = MODEL
        ∧ ∃ record,
            sr_speed_ratio record = ratio
            ∧ sr_timestamp record = now +:+ "Z"
            ∧ save_speed_ratio_data wr (get_speed_test_key MODEL st) record f
              = Ret out.1.2
            ∧ (wr = Written →
               find_speed_ratio out.1.2 (get_speed_test_key MODEL st)
               = Ret (Found record))
    | SpeedTestError error =>
        out.1.2 = f
        ∧ ∃ record e,
            save_speed_ratio_data wr (get_speed_test_key MODEL st) record f
            = Raise e
            ∧ error = exn_str e
    | ClipFailed | SpeedTestFailed _ _ _ => out.1.2 = f
    end.
Proof.
  cbv zeta. unfold whisper_speed_test_run.
  pose proof (clip_none_gone ffmpeg temp_path source_audio_path 15)
    as Hkept. cbv zeta in Hkept.
  destruct (create_test_audio_clip ffmpeg temp_path source_audio_path 15)
    as [[clip|] file]; simpl in Hkept.
  - set (r := test_whisper_speed caps b temp_dir clip MODEL st).
    destruct (success r && (0 <? speed_ratio r)%float) eqn:Hok; simpl.
    + apply andb_true_iff in Hok as [_ Hpos].
      set (record := {| sr_speed_ratio := speed_ratio r;
                        sr_model_tested := MODEL;
                        sr_settings_key_info := st;
                        sr_test_audio_duration := audio_duration r;
                        sr_test_processing_time := processing_time r;
                        sr_timestamp := now +:+ "Z" |}).
      destruct (save_speed_ratio_data wr (get_speed_test_key MODEL st)
                  record f) as [saved|e] eqn:Hsave; simpl.
      * split; [by destruct file|]. split_and!; [done..|].
        exists record. split_and!; [reflexivity..|done|].
        intros ->.
        destruct (save_returned _ _ _ _ _ Hsave) as [d Hd].
        rewrite (save_mapping _ _ _ _ _ Hd) in Hsave. injection Hsave as <-.
        rewrite (find_stored
                   (dict_set (get_speed_test_key MODEL st) record d))
          by reflexivity.
        by rewrite dict_get_set_eq.
      * split; [by destruct file|]. split; [done|].
        by exists record, e.
    + split; [by destruct file|done].
  - simpl. split; [by apply Hkept|done].
Qed.

Lemma speed_test_saves_only_success_witness :
  let ffmpeg := λ _ : list string,
    {| ff_result := Ret {| stdout := ""; stderr := ""; returncode := 0 |};
       ff_leaves := Some 4096%N |} in
  let out := whisper_speed_test_run example_capabilities ffmpeg example_bench
               "/tmp/tmpa.mp3" "/tmp/tmpd" "/srv/books/b/01.mp3"
               {| word_timestamps := None; highlighting := None |}
               [("01.mp3", Some 120%float)] "2025-06-01T12:00:00" Written
               Missing in
  out.2 = None
  ∧ ∃ record, find_speed_ratio out.1.2 "medium:True:True" = Ret (Found record)
              ∧ sr_speed_ratio record = 2%float.
Proof.
  cbv zeta.
  pose proof (speed_test_saves_only_success example_capabilities
                (λ _ : list string,
                   {| ff_result :=
                        Ret {| stdout := ""; stderr := ""; returncode := 0 |};
                      ff_leaves := Some 4096%N |})
                example_bench "/tmp/tmpa.mp3" "/tmp/tmpd"
                "/srv/books/b/01.mp3"
                {| word_timestamps := None; highlighting := None |}
                [("01.mp3", Some 120%float)] "2025-06-01T12:00:00" Written
                Missing) as [H1 H2].
  split; [exact H1|].
  cbv zeta in H2.
  destruct H2 as (_ & _ & record & Hratio & _ & _ & Hfound).
  exists record. split; [by apply Hfound | exact Hratio].
Defined.

(** X19.  The estimates of a successful benchmark cover, in the order in
    which the client sent them, exactly the files whose duration is
    present and above 0; each carries that duration and the duration
    divided by the speed ratio.  A file without a duration, or with a
    duration of 0 or less, gets no estimate. *)
Theorem estimates_skip_nonpositive (speed_ratio : float)
    (file_info : list (string * option float)) :
  let estimates := current_book_estimates speed_ratio file_info in
  estimates.*1 =
    (filter (λ item, (0 <? default 0 item.2)%float = true) file_info).*1
  ∧ Forall (λ est, (0 <? est.2.1)%float = true
                   ∧ est.2.2 = (est.2.1 / speed_ratio)%float
                   ∧ (est.1, Some est.2.1) ∈ file_info) estimates.
Proof.
  cbv zeta. unfold current_book_estimates.
  induction file_info as [|[name info] rest [IHn IHf]]; [split; constructor|].
  rewrite filter_cons. csimpl.
  destruct (0 <? default 0 info)%float eqn:Hpos.
  - rewrite decide_True by done. csimpl. split; [by rewrite IHn|].
    apply Forall_cons; split.
    + simpl. split_and!; [done..|].
      destruct info as [d|]; [apply list_elem_of_here|].
      simpl in Hpos. discriminate Hpos.
    + eapply Forall_impl; [exact IHf|].
      intros est (? & ? & ?). split_and!; try done.
      by apply list_elem_of_further.
  - rewrite decide_False by (simpl; congruence). split; [exact IHn|].
    eapply Forall_impl; [exact IHf|].
    intros est (? & ? & ?). split_and!; try done.
    by apply list_elem_of_further.
Qed.

Lemma estimates_skip_nonpositive_witness :
  (current_book_estimates 2
     [("01.mp3", Some 120%float); ("02.mp3", Some 0%float);
      ("03.mp3", None); ("04.mp3", Some 60%float)]).*1
  = ["01.mp3"; "04.mp3"].
Proof.
  rewrite (proj1 (estimates_skip_nonpositive 2
                    [("01.mp3", Some 120%float); ("02.mp3", Some 0%float);
                     ("03.mp3", None); ("04.mp3", Some 60%float)])).
  reflexivity.
Defined.

(** ** The caption-granularity check *)

Lemma filter_length_mono {A} (P Q : A → Prop) `{∀ x, Decision (P x)}
    `{∀ x, Decision (Q x)} (l : list A) :
  (∀ x, P x → Q x) → (length (filter P l) ≤ length (filter Q l))%nat.
Proof.
  intros HPQ. induction l as [|x l IH]; [done|].
  rewrite !filter_cons.
  destruct (decide (P x)) as [HP|HP].
  - rewrite decide_True by auto. simpl. lia.
  - destruct (decide (Q x)); simpl; lia.
Qed.

(** X20.  Once the caption file could be looked at, [has_word_timestamps]
    never raises.  It answers no for a file that is missing, that cannot
    be read, or that has fewer than three lines, since a line counts at
    most once; and it answers yes as soon as three lines carry a [<u>] or
    [<c>] tag, whatever the other lines are and however the timestamps
    parse. *)
Theorem word_level_needs_three_lines (float_of : string → option float)
    (present : outcome bool) (read_text : outcome string) (there : bool) :
  present = Ret there →
  (∃ answer, has_word_timestamps float_of present read_text = Ret answer)
  ∧ (there = false →
     has_word_timestamps float_of present read_text = Ret false)
  ∧ (∀ e, read_text = Raise e →
       has_word_timestamps float_of present read_text = Ret false)
  ∧ (∀ content, read_text = Ret content →
       (length (split_on (ascii_of_nat 10) content) < 3)%nat →
       has_word_timestamps float_of present read_text = Ret false)
  ∧ (∀ content, there = true → read_text = Ret content →
       (3 ≤ length (filter (λ line, contains "<u>" line || contains "<c>" line
                                    = true)
                      (split_on (ascii_of_nat 10) content)))%nat →
       has_word_timestamps float_of present read_text = Ret true).
Proof.
  intros ->. unfold has_word_timestamps. split_and!.
  - destruct there, read_text; cbn; eauto.
  - by intros ->.
  - intros e ->. by destruct there.
  - intros content -> Hshort. destruct there; [|done]. cbn.
    rewrite bool_decide_eq_false_2; [done|].
    pose proof (length_filter
                  (λ line, word_level_line float_of line = true)
                  (split_on (ascii_of_nat 10) content)). lia.
  - intros content -> -> Htags. cbn.
    rewrite bool_decide_eq_true_2; [done|].
    etrans; [exact Htags|]. apply filter_length_mono.
    intros line Hline. unfold word_level_line.
    apply orb_true_iff in Hline as [-> | ->]; [done|].
    by rewrite orb_true_r.
Qed.

Lemma word_level_needs_three_lines_witness :
  has_word_timestamps (λ _, None) (Ret true)
    (Ret ("WEBVTT" +:+ LF +:+ "<u>one</u> two" +:+ LF +:+ "one <u>two</u>"
          +:+ LF +:+ "00:00.000 --> 00:01.000" +:+ LF +:+ "<c>three</c>"))
  = Ret true
  ∧ has_word_timestamps (λ _, None) (Ret true)
      (Ret ("<u>one</u>" +:+ LF +:+ "<u>two</u>")) = Ret false.
Proof.
  split.
  - refine (proj2 (proj2 (proj2 (proj2
              (word_level_needs_three_lines (λ _, None) (Ret true) _ true
                 eq_refl)))) _ eq_refl eq_refl _).
    vm_compute. lia.
  - refine (proj1 (proj2 (proj2 (proj2
              (word_level_needs_three_lines (λ _, None) (Ret true) _ true
                 eq_refl)))) _ eq_refl _).
    vm_compute. lia.
Defined.

(** ** Caption paths *)

Lemma split_suffix_mp3 (stem : string) :
  split_suffix (stem +:+ ".mp3") = Some stem.
Proof.
  induction stem as [|c stem IH]; [reflexivity|].
  rewrite append_cons. simpl. by rewrite IH.
Qed.

Lemma append_inj_r (a b post : string) : a +:+ post = b +:+ post → a = b.
Proof.
  intros H. apply (f_equal String.list_ascii_of_string) in H.
  rewrite !list_ascii_app in H. apply app_inv_tail in H.
  by apply list_ascii_inj.
Qed.

(** X21.  For the audio files of a book, which are named by one path
    component: when the book is named by one path component other than
    [.], and [stem.mp3] is a file name whose stem is not empty, holds no
    [/] and does not begin with a dot, the caption file is [stem.vtt] in
    the folder of the book; it is never the audio file itself, and two
    such audio files of the book with different names have different
    caption files. *)
Theorem caption_path_of_mp3 (w : world) (book stem stem' : string) :
  book ≠ "" → book ≠ "." → contains "/" book = false →
  stem ≠ "" → contains "/" stem = false → startswith "." stem = false →
  stem' ≠ "" → contains "/" stem' = false → startswith "." stem' = false →
  caption_path w book (stem +:+ ".mp3")
    = path_join (path_join (BOOKS w) book) (stem +:+ ".vtt")
  ∧ caption_path w book (stem +:+ ".mp3")
    ≠ path_join (path_join (BOOKS w) book) (stem +:+ ".mp3")
  ∧ (caption_path w book (stem +:+ ".mp3")
       = caption_path w book (stem' +:+ ".mp3") → stem = stem').
Proof.
  intros _ _ _ Hstem _ _ Hstem' _ _.
  assert (∀ s, s ≠ "" →
            caption_path w book (s +:+ ".mp3")
            = path_join (path_join (BOOKS w) book) (s +:+ ".vtt")) as Hcap.
  { intros s Hs. unfold caption_path, with_suffix.
    rewrite split_suffix_mp3. by destruct s. }
  split_and!.
  - by apply Hcap.
  - rewrite Hcap by done. unfold path_join. intros H.
    apply (inj (String.app _)) in H. apply (inj (String.app "/")) in H.
    apply (inj (String.app stem)) in H. discriminate H.
  - rewrite !Hcap by done. unfold path_join. intros H.
    apply (inj (String.app _)) in H. apply (inj (String.app "/")) in H.
    by apply append_inj_r in H.
Qed.

Lemma caption_path_of_mp3_witness :
  caption_path example_world "b" "01.mp3" = "/srv/books/b/01.vtt".
Proof.
  exact (proj1 (caption_path_of_mp3 example_world "b" "01" "02"
                  ltac:(discriminate) ltac:(discriminate) eq_refl
                  ltac:(discriminate) eq_refl eq_refl
                  ltac:(discriminate) eq_refl eq_refl)).
Defined.

(** ** Blocks of the parallel path and the single-file route *)

(** X22.  In the parallel path the COMPLETED banner says that the worker
    returned, not that the file was transcribed: whenever the source file
    could be looked at, the block of the item is the COMPLETED banner, the
    tagged narration and the END banner, also when the file is missing
    (the narration is then the one error line) or the tool fails.  The
    ERROR block appears only when looking at the file raises, and carries
    that exception's text. *)
Theorem completed_banner_means_returned (w : world) (book mp3 : string) :
  (∀ present,
     path_exists w (path_join (path_join (BOOKS w) book) mp3) = Ret present →
     item_block w book mp3 =
       [LF +:+ "=== COMPLETED: " +:+ mp3 +:+ " ===" +:+ LF]
       ++ ((λ line, "[" +:+ mp3 +:+ "] " +:+ line)
             <$> yields (trace (whisper_stream w book mp3 true true)))
       ++ ["=== END: " +:+ mp3 +:+ " ===" +:+ LF +:+ LF])
  ∧ (path_exists w (path_join (path_join (BOOKS w) book) mp3) = Ret false →
     yields (trace (whisper_stream w book mp3 true true)) =
       ["Error: MP3 file not found: " +:+
        path_join (path_join (BOOKS w) book) mp3 +:+ LF])
  ∧ (∀ e,
       path_exists w (path_join (path_join (BOOKS w) book) mp3) = Raise e →
       item_block w book mp3 =
         [LF +:+ "=== ERROR: " +:+ mp3 +:+ " ===" +:+ LF;
          "Exception: " +:+ exn_str e +:+ LF;
          "=== END ERROR: " +:+ mp3 +:+ " ===" +:+ LF +:+ LF]).
Proof.
  split_and!.
  - intros present Hex. unfold item_block, transcribe_single.
    by rewrite (whisper_stream_returns w book mp3 true true present Hex).
  - intros Hex. unfold whisper_stream. by rewrite Hex.
  - intros e Hex. unfold item_block, transcribe_single, whisper_stream.
    by rewrite Hex.
Qed.

Lemma completed_banner_means_returned_witness :
  item_block example_world "b" "missing.wav" =
    [LF +:+ "=== COMPLETED: missing.wav ===" +:+ LF;
     "[missing.wav] Error: MP3 file not found: /srv/books/b/missing.wav"
       +:+ LF;
     "=== END: missing.wav ===" +:+ LF +:+ LF].
Proof.
  exact (proj1 (completed_banner_means_returned example_world "b"
                  "missing.wav") false eq_refl).
Defined.

(** X23.  Every mp3 file of a book is either a track of the player, for
    which [/gen_one] answers [exists] and starts nothing, or a file
    [/gen_all] would process, for which [/gen_one] streams the run with
    the flags of its request, absent flags counting as true. *)
Theorem gen_one_follows_the_listing (w : world) (book : string)
    (pending : list string) (mp3 : string) (wt hl : option bool) :
  uncaptioned w book (list_mp3s w book) = Ret pending →
  mp3 ∈ list_mp3s w book →
  let answer := stream_single_caption_route w
                  {| one_book := book; one_mp3 := mp3;
                     one_word_timestamps := wt; one_highlighting := hl |} in
  (mp3 ∈ pending ∧
   answer = Ret (Stream (whisper_stream w book mp3
                           (default true wt) (default true hl))))
  ∨ (∃ tracks,
       captioned_tracks w book (list_mp3s w book) = Ret tracks
       ∧ mp3 ∈ tracks ∧ answer = Ret (Text "exists")).
Proof.
  intros Hp Hin. cbv zeta.
  destruct (uncaptioned_spec w _ _ _ Hp)
    as (tracks & Ht & Hperm & _ & _ & Hft & Hfp).
  rewrite <- Hperm in Hin. apply elem_of_app in Hin as [Hin|Hin].
  - right. exists tracks. split_and!; [done..|].
    rewrite Forall_forall in Hft. unfold stream_single_caption_route. simpl.
    by rewrite (Hft mp3 Hin).
  - left. split; [done|].
    rewrite Forall_forall in Hfp. unfold stream_single_caption_route. simpl.
    by rewrite (Hfp mp3 Hin).
Qed.

Lemma gen_one_follows_the_listing_witness :
  stream_single_caption_route silent_world
    {| one_book := "b"; one_mp3 := "01.mp3";
       one_word_timestamps := None; one_highlighting := Some false |}
  = Ret (Stream (whisper_stream silent_world "b" "01.mp3" true false)).
Proof.
  destruct (gen_one_follows_the_listing silent_world "b" ["01.mp3"] "01.mp3"
              None (Some false) eq_refl ltac:(apply list_elem_of_here))
    as [[_ H]|(tracks & Ht & Hin & _)]; [exact H|].
  simpl in Ht. injection Ht as <-. by apply elem_of_nil in Hin.
Defined.
